(** * Spotify HAR extractor: a shallow embedding of [spotify_har.py]

    The development follows the class [SpotifyHARExtractor].  Python values
    are embedded as follows.

    - A [str] is a Rocq [string]; a character is a code point below 256
      (the Latin-1 block).  On that block the character classes of the
      regular expressions ([\w], [\d]) and [str.lower] are written out
      exactly as CPython computes them.
    - [bytes] is [list byte].
    - A parsed JSON document is a value of the inductive type [json]; a
      Python [dict] read from JSON is an association list in insertion order.
    - A Python exception is the [Raise] case of [result]; [try]/[except] is
      a match on it.
    - [self.found_urls] is a [gset string]; the files written by a run are
      a log of (path, content) pairs, and writing a file always succeeds.
    - Library routines and the outside world ([base64.b64decode],
      [json.loads], [urlparse], [requests.get], [time.time], ffmpeg) are the
      fields of the record [Env]; the clock shows one value during a run.
    - Console output is left out.
    - Two limits of the interpreter are not part of the functions: the
      recursion limit, and the 4300 digits [int] converts at most.  The
      statements that depend on them name them in their hypotheses. *)

From Stdlib Require Import ZArith QArith_base List Ascii String Bool Lia.
From Stdlib Require Import Strings.Byte DecimalString.
From Stdlib Require Import Permutation Sorted.
From stdpp Require Import base option list gmap strings sets.

Close Scope Q_scope.
Set Warnings "-register-all".
Open Scope string_scope.
Open Scope list_scope.

(** ** Exceptions *)

Inductive exn : Type :=
  | TypeError
  | AttributeError
  | KeyError
  | ValueError.

Inductive result (A : Type) : Type :=
  | Ok (a : A)
  | Raise (e : exn).

Arguments Ok {A} a.
Arguments Raise {A} e.

#[global] Instance result_ret : MRet result := fun _ a => Ok a.
#[global] Instance result_bind : MBind result := fun _ _ f m =>
  match m with
  | Ok a => f a
  | Raise e => Raise e
  end.

(** [a or b] on booleans that may raise: [b] is not evaluated when [a] holds. *)
Definition por (a b : result bool) : result bool :=
  x ← a; if (x : bool) then Ok true else b.

(** [a and b], short-circuit. *)
Definition pand (a b : result bool) : result bool :=
  x ← a; if (x : bool) then b else Ok false.

Definition is_ok {A} (r : result A) : bool :=
  match r with Ok _ => true | Raise _ => false end.

(** ** Strings *)

Definition bytes : Type := list byte.

(** [s.startswith(p)] *)
Fixpoint startswith (p s : string) : bool :=
  match p, s with
  | EmptyString, _ => true
  | String a p', String b s' => Ascii.eqb a b && startswith p' s'
  | String _ _, EmptyString => false
  end.

(** [needle in hay] for two [str] *)
Fixpoint str_in (needle hay : string) : bool :=
  startswith needle hay ||
  match hay with
  | EmptyString => false
  | String _ hay' => str_in needle hay'
  end.

(** the string left after dropping [n] characters *)
Fixpoint str_drop (n : nat) (s : string) : string :=
  match n, s with
  | O, _ => s
  | S n', String _ s' => str_drop n' s'
  | S _, EmptyString => EmptyString
  end.

Fixpoint str_take (n : nat) (s : string) : string :=
  match n, s with
  | S n', String c s' => String c (str_take n' s')
  | _, _ => EmptyString
  end.

Fixpoint str_all (p : ascii -> bool) (s : string) : bool :=
  match s with
  | EmptyString => true
  | String c s' => p c && str_all p s'
  end.

Fixpoint str_map (f : ascii -> ascii) (s : string) : string :=
  match s with
  | EmptyString => EmptyString
  | String c s' => String (f c) (str_map f s')
  end.

(** the longest prefix of [s] whose characters satisfy [p], and the rest *)
Fixpoint str_span (p : ascii -> bool) (s : string) : string * string :=
  match s with
  | EmptyString => (EmptyString, EmptyString)
  | String c s' =>
      if p c then let '(a, b) := str_span p s' in (String c a, b)
      else (EmptyString, s)
  end.

Definition code (c : ascii) : N := N_of_ascii c.

Definition in_range (lo hi : N) (c : ascii) : bool :=
  ((lo <=? code c) && (code c <=? hi))%N.

Definition is_ascii_digit (c : ascii) : bool := in_range 48 57 c.
Definition is_ascii_upper (c : ascii) : bool := in_range 65 90 c.
Definition is_ascii_lower (c : ascii) : bool := in_range 97 122 c.

(** the class [[a-f0-9]] *)
Definition is_hex_lower (c : ascii) : bool :=
  is_ascii_digit c || in_range 97 102 c.

(** [\d] on a [str] pattern is [Py_UNICODE_ISDECIMAL]; below 256 only the
    ASCII digits are decimal. *)
Definition is_decimal (c : ascii) : bool := is_ascii_digit c.

(** [str.isalnum] of one character, for code points below 256: the ASCII
    letters and digits, the letters U+00AA, U+00B5, U+00BA, U+00C0..U+00D6,
    U+00D8..U+00F6, U+00F8..U+00FF and the numeric characters U+00B2, U+00B3,
    U+00B9, U+00BC..U+00BE. *)
Definition is_alnum (c : ascii) : bool :=
  is_ascii_digit c || is_ascii_upper c || is_ascii_lower c ||
  (code c =? 170)%N || (code c =? 181)%N || (code c =? 186)%N ||
  in_range 192 214 c || in_range 216 246 c || in_range 248 255 c ||
  in_range 178 179 c || (code c =? 185)%N || in_range 188 190 c.

(** [\w] on a [str] pattern: alphanumeric or underscore *)
Definition is_word (c : ascii) : bool :=
  is_alnum c || (code c =? 95)%N.

(** the class [[A-Za-z0-9_.-]] *)
Definition is_safe_char (c : ascii) : bool :=
  is_ascii_digit c || is_ascii_upper c || is_ascii_lower c ||
  (code c =? 95)%N || (code c =? 46)%N || (code c =? 45)%N.

Definition is_ascii_char (c : ascii) : bool := (code c <? 128)%N.

(** [str.lower] of one character below 256: A..Z and U+00C0..U+00DE except
    U+00D7 move up by 32. *)
Definition lower_char (c : ascii) : ascii :=
  if is_ascii_upper c || (in_range 192 222 c && negb (code c =? 215)%N)
  then ascii_of_N (code c + 32)
  else c.

Definition lower (s : string) : string := str_map lower_char s.

(** [int(s)] for a string of ASCII digits; an [int] has no upper bound, and
    the interpreter's cap on the number of digits [int] converts is left out *)
Definition digit_value (c : ascii) : N := (code c - 48)%N.

Fixpoint int_of_digits_acc (acc : N) (s : string) : N :=
  match s with
  | EmptyString => acc
  | String c s' => int_of_digits_acc (acc * 10 + digit_value c)%N s'
  end.

Definition int_of_digits (s : string) : N := int_of_digits_acc 0 s.

(** ** Bytes *)

Fixpoint bytes_startswith (p d : bytes) : bool :=
  match p, d with
  | [], _ => true
  | a :: p', b :: d' => Byte.eqb a b && bytes_startswith p' d'
  | _ :: _, [] => false
  end.

Fixpoint bytes_in (needle hay : bytes) : bool :=
  bytes_startswith needle hay ||
  match hay with
  | [] => false
  | _ :: hay' => bytes_in needle hay'
  end.

(** ** Parsed JSON values *)

Inductive json : Type :=
  | JNull
  | JBool (b : bool)
  | JInt (z : Z)
  | JFloat (q : Q)
  | JStr (s : string)
  | JArr (items : list json)
  | JObj (fields : list (string * json)).

(** Python truthiness of a value read from JSON *)
Definition truthy (v : json) : bool :=
  match v with
  | JNull => false
  | JBool b => b
  | JInt z => negb (z =? 0)%Z
  | JFloat q => negb (Qnum q =? 0)%Z
  | JStr s => negb (String.eqb s "")
  | JArr items => match items with [] => false | _ => true end
  | JObj fields => match fields with [] => false | _ => true end
  end.

(** lookup in a [dict]; the keys of a [dict] are distinct *)
Fixpoint alist_get {A} (k : string) (l : list (string * A)) : option A :=
  match l with
  | [] => None
  | (k', v) :: l' => if String.eqb k k' then Some v else alist_get k l'
  end.

Definition is_str (s : string) (v : json) : bool :=
  match v with
  | JStr s' => String.eqb s s'
  | _ => false
  end.

(** [needle in v] where [needle] is a [str]: substring test on a [str],
    element test on a [list], key test on a [dict], [TypeError] on the rest. *)
Definition py_in (needle : string) (v : json) : result bool :=
  match v with
  | JStr s => Ok (str_in needle s)
  | JArr items => Ok (existsb (is_str needle) items)
  | JObj fields => Ok (existsb (fun p => String.eqb needle (fst p)) fields)
  | _ => Raise TypeError
  end.

(** [v.get(k, d)]: only a [dict] has [get]. *)
Definition py_get (v : json) (k : string) (d : json) : result json :=
  match v with
  | JObj fields => Ok (default d (alist_get k fields))
  | _ => Raise AttributeError
  end.

(** [v.get(k)], with [None] as default *)
Definition py_get_none (v : json) (k : string) : result json :=
  py_get v k JNull.

(** [v[k]] with a [str] key: [KeyError] on a [dict] without the key,
    [TypeError] on the rest. *)
Definition py_index (v : json) (k : string) : result json :=
  match v with
  | JObj fields =>
      match alist_get k fields with
      | Some x => Ok x
      | None => Raise KeyError
      end
  | _ => Raise TypeError
  end.

(** the items a [for] loop over [v] visits: the elements of a [list], the
    keys of a [dict], the characters of a [str] *)
Definition py_iter (v : json) : result (list json) :=
  match v with
  | JArr items => Ok items
  | JObj fields => Ok (map (fun p => JStr (fst p)) fields)
  | JStr s => Ok (map (fun c => JStr (String c EmptyString)) (list_ascii_of_string s))
  | _ => Raise TypeError
  end.

(** [len(v)] *)
Definition py_len (v : json) : result nat :=
  match v with
  | JArr items => Ok (List.length items)
  | JObj fields => Ok (List.length fields)
  | JStr s => Ok (String.length s)
  | _ => Raise TypeError
  end.

(** ** DomainClassifier *)

Definition spotify_image_domains : list string :=
  [ "i.scdn.co";
    "mosaic.scdn.co";
    "seed-mix-image.spotifycdn.com";
    "lineup-images.scdn.co";
    "thisis-images.scdn.co";
    "charts-images.scdn.co";
    "daily-mix.scdn.co";
    "mixed-media-images.spotifycdn.com" ].

Definition spotify_video_domains : list string :=
  [ "video-akpcw.spotifycdn.com";
    "video-fa723fc0e0b4479496acdae1c1f.spotifycdn.com";
    "canvas.scdn.co";
    "canvaz.scdn.co" ].

(** [any(domain in url for domain in domains)] *)
Fixpoint any_in (domains : list string) (url : json) : result bool :=
  match domains with
  | [] => Ok false
  | d :: ds => por (py_in d url) (any_in ds url)
  end.

Definition is_spotify_image_url (url : json) : result bool :=
  any_in spotify_image_domains url.

Definition is_spotify_video_url (url : json) : result bool :=
  any_in spotify_video_domains url.

(** ** Content kind *)

Definition b_jpeg : bytes := [xff; xd8; xff].
Definition b_png : bytes := [x89; x50; x4e; x47].
Definition b_gif8 : bytes := [x47; x49; x46; x38].
Definition b_riff : bytes := [x52; x49; x46; x46].
Definition b_webp : bytes := [x57; x45; x42; x50].
Definition b_ebml : bytes := [x1a; x45; xdf; xa3].
Definition b_zero3 : bytes := [x00; x00; x00].
Definition b_ftyp : bytes := [x66; x74; x79; x70].

(** the magic-byte half of [get_file_extension] *)
Definition sniff_extension (data : bytes) : string :=
  if bytes_startswith b_jpeg data then ".jpg"
  else if bytes_startswith b_png data then ".png"
  else if bytes_startswith b_gif8 data then ".gif"
  else if bytes_startswith b_riff data && bytes_in b_webp (firstn 20 data) then ".webp"
  else if bytes_startswith b_ebml data then ".webm"
  else if bytes_startswith b_zero3 data && bytes_in b_ftyp (firstn 20 data) then ".mp4"
  else ".bin".

Definition get_file_extension (content_type : json) (data : bytes) : result string :=
  is_jpeg ← por (py_in "jpeg" content_type) (py_in "jpg" content_type);
  if (is_jpeg : bool) then Ok ".jpg" else
  is_png ← py_in "png" content_type;
  if (is_png : bool) then Ok ".png" else
  is_gif ← py_in "gif" content_type;
  if (is_gif : bool) then Ok ".gif" else
  is_webp ← py_in "webp" content_type;
  if (is_webp : bool) then Ok ".webp" else
  is_webm ← py_in "webm" content_type;
  if (is_webm : bool) then Ok ".webm" else
  is_mp4 ← py_in "mp4" content_type;
  if (is_mp4 : bool) then Ok ".mp4" else
  Ok (sniff_extension data).

Definition file_extensions : list string :=
  [".jpg"; ".png"; ".gif"; ".webp"; ".webm"; ".mp4"; ".bin"].

(** ** Regular expressions of the source

    The source uses three shapes of pattern; each is written out as the
    matcher the [re] module runs for it. *)

(** A literal followed by exactly [n] characters of [[a-f0-9]], matched at
    the head of [text]; the result is the whole match. *)
Definition match_lit_hex (lit : string) (n : nat) (text : string) : option string :=
  if startswith lit text then
    let h := str_take n (str_drop (String.length lit) text) in
    if (String.length h =? n)%nat && str_all is_hex_lower h
    then Some (lit ++ h)%string
    else None
  else None.

(** [re.findall] for such a pattern: matches are taken left to right and do
    not overlap; [skip] counts the characters of the last match still to be
    passed over.  The literal is never empty, so nothing matches at the end
    of the text. *)
Fixpoint findall_lit_hex (lit : string) (n : nat) (skip : nat) (text : string)
  : list string :=
  match text with
  | EmptyString => []
  | String _ text' =>
      match skip with
      | S k => findall_lit_hex lit n k text'
      | O =>
          match match_lit_hex lit n text with
          | Some m => m :: findall_lit_hex lit n (String.length m - 1) text'
          | None => findall_lit_hex lit n 0 text'
          end
      end
  end.

(** A literal [pre], then one or more characters of the class [cls]
    (greedy), then a literal [post], matched at the head of [s]; the result
    is the captured run.  In every use the first character of [post] lies
    outside [cls], so giving back characters of the run can never help and
    the longest run is the only candidate. *)
Definition match_run (pre : string) (cls : ascii -> bool) (post : string)
    (s : string) : option string :=
  if startswith pre s then
    let '(run, rest) := str_span cls (str_drop (String.length pre) s) in
    if negb (String.eqb run "") && startswith post rest then Some run else None
  else None.

(** [re.search]: the leftmost position at which the pattern matches *)
Fixpoint search_run (pre : string) (cls : ascii -> bool) (post : string)
    (s : string) : option string :=
  match match_run pre cls post s with
  | Some g => Some g
  | None =>
      match s with
      | EmptyString => None
      | String _ s' => search_run pre cls post s'
      end
  end.

(** [re.search(r'sources/([a-f0-9]+)/', url)] *)
Definition search_source (url : string) : option string :=
  search_run "sources/" is_hex_lower "/" url.

(** [re.search(r'profiles/(\d+)/', url)] *)
Definition search_profile (url : string) : option string :=
  search_run "profiles/" is_decimal "/" url.

(** [re.search(r'/(\d+)\.webm', url)] *)
Definition search_segment (url : string) : option string :=
  search_run "/" is_decimal ".webm" url.

(** [int(match.group(1)) if match else 0].  CPython's [int] converts a
    decimal string of up to 4300 digits and raises [ValueError] on a longer
    one; the conversion is written here for every string, and the statements
    that promise a number or a file ask for digit runs within that bound
    ([int_max_str_digits], [number_readable]). *)
Definition extract_segment_number (url : string) : N :=
  match search_segment url with
  | Some digits => int_of_digits digits
  | None => 0%N
  end.

(** ** ReferenceScanner: free text *)

Definition patterns : list (string * nat) :=
  [ ("ab67616", 32%nat);
    ("ab6761610000", 24%nat);
    ("ab67616d", 32%nat) ].

Definition image_urls (m : string) : list string :=
  [ ("https://i.scdn.co/image/" ++ m)%string;
    ("https://mosaic.scdn.co/640/" ++ m)%string;
    ("https://mosaic.scdn.co/300/" ++ m)%string ].

Definition add_all (urls : list string) (found_urls : gset string) : gset string :=
  fold_left (fun acc u => {[u]} ∪ acc) urls found_urls.

Definition find_image_patterns_in_text (text : string) (found_urls : gset string)
  : gset string :=
  fold_left
    (fun acc (pattern : string * nat) =>
       fold_left (fun acc' m => add_all (image_urls m) acc')
         (findall_lit_hex (fst pattern) (snd pattern) 0 text) acc)
    patterns found_urls.

(** ** Filenames *)

(** [s.strip('/')] and its two halves *)
Fixpoint lstrip_char (c : ascii) (s : string) : string :=
  match s with
  | EmptyString => EmptyString
  | String a s' => if Ascii.eqb a c then lstrip_char c s' else s
  end.

Fixpoint rstrip_char (c : ascii) (s : string) : string :=
  match s with
  | EmptyString => EmptyString
  | String a s' =>
      let r := rstrip_char c s' in
      if String.eqb r "" && Ascii.eqb a c then EmptyString else String a r
  end.

Definition strip_char (c : ascii) (s : string) : string :=
  rstrip_char c (lstrip_char c s).

(** [s.split(c)]: never empty *)
Fixpoint split_char (c : ascii) (s : string) : list string :=
  match s with
  | EmptyString => [EmptyString]
  | String a s' =>
      if Ascii.eqb a c then EmptyString :: split_char c s'
      else
        match split_char c s' with
        | h :: t => String a h :: t
        | [] => [String a EmptyString]
        end
  end.

(** [s.rsplit(c, 1)[0]] when [c] occurs in [s], [None] when it does not *)
Fixpoint before_last (c : ascii) (s : string) : option string :=
  match s with
  | EmptyString => None
  | String a s' =>
      match before_last c s' with
      | Some r => Some (String a r)
      | None => if Ascii.eqb a c then Some EmptyString else None
      end
  end.

(** [str(n)] for an [int] *)
Definition str_of_int (n : Z) : string := NilZero.string_of_int (Z.to_int n).

(** [re.sub(r'[^\w\-_.]', '_', s)] *)
Definition keeps (c : ascii) : bool :=
  is_word c || (code c =? 45)%N || (code c =? 95)%N || (code c =? 46)%N.

Definition sanitize (s : string) : string :=
  str_map (fun c => if keeps c then c else "_"%char) s.

(** [s.replace(old, new)] for a non-empty [old]: occurrences are replaced
    left to right and do not overlap. *)
Fixpoint str_replace_from (skip : nat) (old new s : string) : string :=
  match s with
  | EmptyString => EmptyString
  | String c s' =>
      match skip with
      | S k => str_replace_from k old new s'
      | O =>
          if startswith old s
          then (new ++ str_replace_from (String.length old - 1) old new s')%string
          else String c (str_replace_from 0 old new s')
      end
  end.

Definition str_replace (old new s : string) : string :=
  str_replace_from 0 old new s.

(** ** The outside world *)

Record http_response := {
  status_code : Z;
  (** [response.headers.get('content-type')] *)
  header_content_type : option string;
  (** [response.content] *)
  body : bytes
}.

Record Env := {
  (** [base64.b64decode(text)] for a [str] *)
  b64decode : string -> result bytes;
  (** [data.decode('utf-8')] *)
  utf8_decode : bytes -> result string;
  (** [json.loads(text)] for a [str] *)
  json_loads : string -> result json;
  (** [urlparse(url).path] for a [str] *)
  urlparse_path : string -> result string;
  (** [requests.get(url, headers=headers, timeout=30)] for a [str] *)
  requests_get : string -> result http_response;
  (** [int(time.time())] *)
  now : Z;
  (** ffmpeg, run on an input path with an output path, exits with code 0
      and leaves the output file behind *)
  ffmpeg_ok : string -> string -> bool
}.

(** [os.path.join(folder, name)] for a relative [name], POSIX separator *)
Definition path_join (folder name : string) : string :=
  (folder ++ "/" ++ name)%string.

Definition output_folder : string := "har_extracted".
Definition images_folder : string := path_join output_folder "images".
Definition videos_folder : string := path_join output_folder "videos".
Definition data_folder : string := path_join output_folder "data".

(** ** Media candidates *)

Inductive segment_role : Type :=
  | SegInit
  | SegMedia
  | SegUnknown.

(** the keys copied from a capture entry *)
Record entry_fields := {
  method : json;
  status : json;
  body_size : json;
  timestamp : json;
  headers : json
}.

(** The dict [image_info] / [video_info] / [media_info].  A key that may be
    absent is an [option]; [is_video_segment] is [true] when the key is
    present (the source only ever stores [True] there).  The key
    [decoded_size] is [len] of [decoded_data] and is left out. *)
Record media_info := {
  url : json;
  content_type : json;
  fields_of_entry : option entry_fields;
  content : option json;
  decoded_data : option bytes;
  is_video_segment : bool;
  segment_data : option bytes;
  segment_type : option segment_role
}.

Definition set_decoded (m : media_info) (d : bytes) : media_info :=
  {| url := url m; content_type := content_type m;
     fields_of_entry := fields_of_entry m; content := content m;
     decoded_data := Some d;
     is_video_segment := is_video_segment m;
     segment_data := segment_data m; segment_type := segment_type m |}.

Definition set_content (m : media_info) (c : json) : media_info :=
  {| url := url m; content_type := content_type m;
     fields_of_entry := fields_of_entry m; content := Some c;
     decoded_data := decoded_data m;
     is_video_segment := is_video_segment m;
     segment_data := segment_data m; segment_type := segment_type m |}.

Definition set_segment (m : media_info) (d : bytes) (r : segment_role) : media_info :=
  {| url := url m; content_type := content_type m;
     fields_of_entry := fields_of_entry m; content := content m;
     decoded_data := decoded_data m;
     is_video_segment := true;
     segment_data := Some d; segment_type := Some r |}.

(** ** MediaResolver *)

(** [urlparse(url)] on the value stored under ['url']: only a [str] parses *)
Definition parsed_path (E : Env) (u : json) : result string :=
  match u with
  | JStr s => urlparse_path E s
  | _ => Raise AttributeError
  end.

(** [generate_filename(url, ext)] on the value stored under ['url'];
    [urlparse] raises on some urls, and then no name is made *)
Definition generate_filename (E : Env) (u : json) (ext : string) : result string :=
  path ← parsed_path E u;
  let path_parts := split_char "/" (strip_char "/" path) in
  let last_part := List.last path_parts EmptyString in
  let base_name :=
    if negb (String.eqb last_part "") then
      match before_last "." last_part with
      | Some stem => stem
      | None => last_part
      end
    else ("spotify_media_" ++ str_of_int (now E))%string in
  Ok (sanitize base_name ++ ext)%string.

Definition is_video_ext (ext : string) : bool :=
  String.eqb ext ".webm" || String.eqb ext ".mp4".

(** [save_embedded_media]: the written file (path and bytes), or [None]
    when the body of the [try] raised *)
Definition save_embedded_media (E : Env) (m : media_info) (data : bytes)
  : option (string * bytes) :=
  let attempt : result (string * bytes) :=
    ext ← get_file_extension (content_type m) data;
    filename ← generate_filename E (url m) ext;
    is_video ← por (py_in "video" (content_type m)) (Ok (is_video_ext ext));
    let filepath :=
      if (is_video : bool) then path_join videos_folder filename
      else path_join images_folder filename in
    Ok (filepath, data) in
  match attempt with
  | Ok w => Some w
  | Raise _ => None
  end.

(** the role [download_media] stores under ['segment_type'] *)
Definition segment_role_of_url (u : string) : segment_role :=
  if str_in "inits" u then SegInit
  else if str_in "/0.webm" u || str_in "/1.webm" u || str_in "/2.webm" u then SegMedia
  else SegUnknown.

(** the fetch half of [download_media], for a [str] url *)
Definition fetch_media (E : Env) (m : media_info) (u : string)
  : result (media_info * option (string * bytes)) :=
  response ← requests_get E u;
  if (status_code response =? 200)%Z && (100 <? List.length (body response))%nat then
    let ctype := lower (default "" (header_content_type response)) in
    ext ← get_file_extension (JStr ctype) (body response);
    filename ← generate_filename E (JStr u) ext;
    if str_in "video" ctype || is_video_ext ext || str_in "video-akpcw.spotifycdn.com" u then
      let filepath := path_join videos_folder filename in
      let m' :=
        if str_in "webm" (lower u) || String.eqb ext ".webm"
        then set_segment m (body response) (segment_role_of_url u)
        else m in
      Ok (m', Some (filepath, body response))
    else
      Ok (m, Some (path_join images_folder filename, body response))
  else Ok (m, None).

(** [download_media]: the dict after the call and the file written, if any;
    the returned path is the path of that file. *)
Definition download_media (E : Env) (m : media_info)
  : media_info * option (string * bytes) :=
  match decoded_data m with
  | Some data => (m, save_embedded_media E m data)
  | None =>
      match url m with
      | JStr u =>
          match fetch_media E m u with
          | Ok r => r
          | Raise _ => (m, None)
          end
      | _ => (m, None)
      end
  end.

(** ** SegmentAssembler *)

Record segment_group := {
  group_init : option media_info;
  group_segments : list media_info
}.

Fixpoint alist_set {A} (k : string) (v : A) (l : list (string * A)) : list (string * A) :=
  match l with
  | [] => [(k, v)]
  | (k', v') :: l' =>
      if String.eqb k k' then (k, v) :: l' else (k', v') :: alist_set k v l'
  end.

(** the group key of a candidate the first loop keeps, [None] for one it
    passes over; [re.search] raises on a url that is not a [str] *)
Definition group_key (m : media_info) : result (option string) :=
  if is_video_segment m then
    on_host ← py_in "video-akpcw.spotifycdn.com" (url m);
    if (on_host : bool) then
      match url m with
      | JStr u =>
          match search_source u, search_profile u with
          | Some source_id, Some profile_id =>
              Ok (Some (source_id ++ "_profile_" ++ profile_id)%string)
          | _, _ => Ok None
          end
      | _ => Raise TypeError
      end
    else Ok None
  else Ok None.

Definition is_init (m : media_info) : bool :=
  match segment_type m with
  | Some SegInit => true
  | _ => false
  end.

Definition add_to_group (m : media_info) (g : segment_group) : segment_group :=
  if is_init m
  then {| group_init := Some m; group_segments := group_segments g |}
  else {| group_init := group_init g; group_segments := group_segments g ++ [m] |}.

Definition empty_group : segment_group :=
  {| group_init := None; group_segments := [] |}.

Definition add_segment (groups : list (string * segment_group)) (key : string)
    (m : media_info) : list (string * segment_group) :=
  alist_set key (add_to_group m (default empty_group (alist_get key groups))) groups.

(** the first loop of [combine_webm_segments] *)
Fixpoint group_segments_of (extracted_media : list media_info)
    (groups : list (string * segment_group)) : result (list (string * segment_group)) :=
  match extracted_media with
  | [] => Ok groups
  | m :: rest =>
      key ← group_key m;
      match key with
      | Some k => group_segments_of rest (add_segment groups k m)
      | None => group_segments_of rest groups
      end
  end.

(** the sort key [extract_segment_number(x['url'])]; every grouped
    candidate has a [str] url, the regular expressions matched it *)
Definition segment_number (m : media_info) : N :=
  match url m with
  | JStr u => extract_segment_number u
  | _ => 0%N
  end.

(** [sorted(..., key=...)]: stable, ascending *)
Fixpoint insert_by {A} (key : A -> N) (x : A) (l : list A) : list A :=
  match l with
  | [] => [x]
  | y :: l' => if (key x <=? key y)%N then x :: y :: l' else y :: insert_by key x l'
  end.

Fixpoint sorted_by {A} (key : A -> N) (l : list A) : list A :=
  match l with
  | [] => []
  | x :: l' => insert_by key x (sorted_by key l')
  end.

(** [combined_data += segment['segment_data']] over the sorted segments;
    [None] when a dict lacks the key ([KeyError]) *)
Fixpoint append_segments (combined_data : bytes) (media_segments : list media_info)
  : option bytes :=
  match media_segments with
  | [] => Some combined_data
  | segment :: rest =>
      match segment_data segment with
      | Some d => append_segments (combined_data ++ d) rest
      | None => None
      end
  end.

(** the bytes one group assembles to; [None] when the group is passed over
    or the body of the [try] raised *)
Definition combined_data_of (g : segment_group) : option bytes :=
  let media_segments := sorted_by segment_number (group_segments g) in
  match group_init g, media_segments with
  | Some init_segment, _ :: _ =>
      match segment_data init_segment with
      | Some d => append_segments d media_segments
      | None => None
      end
  | _, _ => None
  end.

Definition convert_to_mp4 (E : Env) (webm_path : string) : option string :=
  let mp4_path := str_replace ".webm" ".mp4" webm_path in
  if ffmpeg_ok E webm_path mp4_path then Some mp4_path else None.

Definition output_path_of (key : string) : string :=
  path_join videos_folder ("spotify_canvas_" ++ key ++ ".webm")%string.

(** what [combine_webm_segments] yields: the list it returns and the files
    it wrote, oldest first *)
Record combined := {
  combined_videos : list string;
  written : list (string * bytes)
}.

(** the second loop *)
Fixpoint combine_groups (E : Env) (groups : list (string * segment_group)) : combined :=
  match groups with
  | [] => {| combined_videos := []; written := [] |}
  | (key, g) :: rest =>
      let r := combine_groups E rest in
      match combined_data_of g with
      | Some data =>
          let output_path := output_path_of key in
          {| combined_videos :=
               output_path ::
               match convert_to_mp4 E output_path with
               | Some mp4_path => mp4_path :: combined_videos r
               | None => combined_videos r
               end;
             written := (output_path, data) :: written r |}
      | None => r
      end
  end.

Definition combine_webm_segments (E : Env) (extracted_media : list media_info)
  : result combined :=
  groups ← group_segments_of extracted_media [];
  Ok (combine_groups E groups).

(** ** ReferenceScanner: structured values *)

Definition image_keys : list string :=
  ["image"; "images"; "cover_art"; "avatar"; "picture"; "artwork"].

Definition is_image_key (key : string) : bool :=
  existsb (String.eqb key) image_keys.

(** what the loop body of [find_images_in_json] does with a value stored
    under one of the curated keys *)
Definition collect_image (value : json) (found_urls : gset string) : gset string :=
  match value with
  | JStr s =>
      match is_spotify_image_url value with
      | Ok true => {[s]} ∪ found_urls
      | _ => found_urls
      end
  | _ => found_urls
  end.

(** [find_images_in_json(data, source_url)]: the set [self.found_urls]
    after the call.  The recursion follows the structure of the value.  The
    interpreter's recursion limit is left out: on a value nested about a
    thousand levels deep CPython raises [RecursionError], so what is said
    of the scan is said of the calls that return ([within_recursion_limit]
    describes values on which it does). *)
Fixpoint find_images_in_json (data : json) (found_urls : gset string) : gset string :=
  match data with
  | JObj fields =>
      fold_left
        (fun acc (kv : string * json) =>
           if is_image_key (fst kv) then collect_image (snd kv) acc
           else
             match snd kv with
             | JObj _ | JArr _ => find_images_in_json (snd kv) acc
             | _ => acc
             end)
        fields found_urls
  | JArr items =>
      fold_left (fun acc item => find_images_in_json item acc) items found_urls
  | _ => found_urls
  end.

(** The scan the specification asks for: the same walk, cut off below a
    fixed depth.  [limit] counts the levels of nesting still allowed. *)
Fixpoint scan_depth_bounded (limit : nat) (data : json) (found_urls : gset string)
  : gset string :=
  match limit with
  | O => found_urls
  | S limit' =>
      match data with
      | JObj fields =>
          fold_left
            (fun acc (kv : string * json) =>
               if is_image_key (fst kv) then collect_image (snd kv) acc
               else
                 match snd kv with
                 | JObj _ | JArr _ => scan_depth_bounded limit' (snd kv) acc
                 | _ => acc
                 end)
            fields found_urls
      | JArr items =>
          fold_left (fun acc item => scan_depth_bounded limit' item acc) items found_urls
      | _ => found_urls
      end
  end.

(** the number of nested containers around the deepest node *)
Fixpoint depth (data : json) : nat :=
  match data with
  | JObj fields => S (fold_right (fun kv d => Nat.max (depth (snd kv)) d) O fields)
  | JArr items => S (fold_right (fun item d => Nat.max (depth item) d) O items)
  | _ => O
  end.

(** [n] lists around [v] *)
Fixpoint nest (n : nat) (v : json) : json :=
  match n with
  | O => v
  | S n' => JArr [nest n' v]
  end.

(** ** EntryClassifier *)

(** [text = base64.b64decode(text)] on the value stored under ['text'] *)
Definition b64decode_value (E : Env) (text : json) : result bytes :=
  match text with
  | JStr s => b64decode E s
  | _ => Raise TypeError
  end.

(** the [try] block at the end of [extract_api_image_references], for the
    body text [text] *)
Definition scan_text (E : Env) (text : json) (found_urls : gset string)
  : result (gset string) :=
  match text with
  | JStr s =>
      match json_loads E s with
      | Ok json_data => Ok (find_images_in_json json_data found_urls)
      | Raise _ => Ok (find_image_patterns_in_text s found_urls)
      end
  | _ => Raise TypeError
  end.

Definition extract_api_image_references (E : Env) (entry : json)
    (found_urls : gset string) : gset string :=
  let attempt : result (gset string) :=
    response ← py_get entry "response" (JObj []);
    content ← py_get response "content" (JObj []);
    text ← py_get_none content "text";
    if truthy text then
      encoding ← py_get_none content "encoding";
      if is_str "base64" encoding then
        match d ← b64decode_value E text; utf8_decode E d with
        | Ok s => scan_text E (JStr s) found_urls
        | Raise _ => Ok found_urls
        end
      else scan_text E text found_urls
    else Ok found_urls in
  match attempt with
  | Ok f => f
  | Raise _ => found_urls
  end.

(** [get_content_type]: the loop over the headers *)
Fixpoint find_content_type (hs : list json) : result json :=
  match hs with
  | [] => Ok (JStr "")
  | header :: rest =>
      name ← py_get header "name" (JStr "");
      match name with
      | JStr n =>
          if String.eqb (lower n) "content-type"
          then py_get header "value" (JStr "")
          else find_content_type rest
      | _ => Raise AttributeError
      end
  end.

Definition get_content_type (response : json) : result json :=
  hs ← py_get response "headers" (JArr []);
  items ← py_iter hs;
  find_content_type items.

(** the dict literal both branches build *)
Definition new_media_info (entry request response u : json) : result media_info :=
  m ← py_get request "method" (JStr "GET");
  s ← py_get response "status" (JInt 0);
  ct ← get_content_type response;
  sz ← py_get response "bodySize" (JInt 0);
  ts ← py_get entry "startedDateTime" (JStr "");
  hs ← py_get response "headers" (JArr []);
  Ok {| url := u; content_type := ct;
        fields_of_entry :=
          Some {| method := m; status := s; body_size := sz;
                  timestamp := ts; headers := hs |};
        content := None; decoded_data := None;
        is_video_segment := false; segment_data := None; segment_type := None |}.

(** the inner [try]: a failed decode leaves the dict as it is *)
Definition try_decode (E : Env) (text : json) (m : media_info) : media_info :=
  match b64decode_value E text with
  | Ok d => set_decoded m d
  | Raise _ => m
  end.

Definition image_entry (E : Env) (entry request response u : json) : result media_info :=
  image_info ← new_media_info entry request response u;
  c ← py_get response "content" (JObj []);
  if truthy c then
    let image_info := set_content image_info c in
    encoding ← py_get_none c "encoding";
    if is_str "base64" encoding then
      text ← py_get_none c "text";
      if truthy text then Ok (try_decode E text image_info) else Ok image_info
    else Ok image_info
  else Ok image_info.

Definition video_entry (E : Env) (entry request response u : json) : result media_info :=
  video_info ← new_media_info entry request response u;
  c ← py_get response "content" (JObj []);
  has_text ← pand (Ok (truthy c)) (text ← py_get_none c "text"; Ok (truthy text));
  if (has_text : bool) then
    let video_info := set_content video_info c in
    encoding ← py_get_none c "encoding";
    if is_str "base64" encoding then
      text ← py_index c "text";
      Ok (try_decode E text video_info)
    else Ok video_info
  else Ok video_info.

(** the body of the [try] in the loop of [extract_spotify_images]: the
    candidate appended to [images], if any, and [self.found_urls] afterwards *)
Definition classify_entry (E : Env) (entry : json) (found_urls : gset string)
  : result (option media_info * gset string) :=
  request ← py_get entry "request" (JObj []);
  response ← py_get entry "response" (JObj []);
  u ← py_get request "url" (JStr "");
  is_image ← is_spotify_image_url u;
  if (is_image : bool) then
    image_info ← image_entry E entry request response u;
    Ok (Some image_info, found_urls)
  else
    is_video ← is_spotify_video_url u;
    if (is_video : bool) then
      video_info ← video_entry E entry request response u;
      Ok (Some video_info, found_urls)
    else
      is_api ← por (py_in "api.spotify.com" u) (py_in "spclient" u);
      if (is_api : bool)
      then Ok (None, extract_api_image_references E entry found_urls)
      else Ok (None, found_urls).

(** the loop: an entry whose processing raises is passed over *)
Fixpoint classify_entries (E : Env) (entries : list json) (found_urls : gset string)
  : list media_info * gset string :=
  match entries with
  | [] => ([], found_urls)
  | entry :: rest =>
      match classify_entry E entry found_urls with
      | Ok (Some info, found') =>
          let '(images, found'') := classify_entries E rest found' in
          (info :: images, found'')
      | Ok (None, found') => classify_entries E rest found'
      | Raise _ => classify_entries E rest found_urls
      end
  end.

Definition extract_spotify_images (E : Env) (har_data : json) (found_urls : gset string)
  : result (list media_info * gset string) :=
  invalid ←
    por (b ← py_in "log" har_data; Ok (negb b))
        (log ← py_index har_data "log"; b ← py_in "entries" log; Ok (negb b));
  if (invalid : bool) then Ok ([], found_urls)
  else
    log ← py_index har_data "log";
    entries ← py_index log "entries";
    _ ← py_len entries;
    items ← py_iter entries;
    Ok (classify_entries E items found_urls).

(** ** PipelineRunner *)

(** the numbers [save_analysis_report] computes for the report *)
Record analysis := {
  report_total_entries : nat;
  report_total_media_found : nat;
  report_images : nat;
  report_videos : nat;
  report_unique_urls : nat
}.

(** [len([m for m in extracted_media if word in m.get('content_type', '')])] *)
Fixpoint count_content_type (word : string) (extracted_media : list media_info)
  : result nat :=
  match extracted_media with
  | [] => Ok O
  | m :: rest =>
      b ← py_in word (content_type m);
      n ← count_content_type word rest;
      Ok (if (b : bool) then S n else n)
  end.

(** [save_analysis_report]: the path of the report and its numbers.  The
    serialisation itself is left out. *)
Definition save_analysis_report (E : Env) (har_data : json)
    (extracted_media : list media_info) (found_urls : gset string)
  : result (string * analysis) :=
  let report_file :=
    path_join data_folder ("har_analysis_" ++ str_of_int (now E) ++ ".json")%string in
  log ← py_get har_data "log" (JObj []);
  _ ← py_get log "version" (JStr "");
  log ← py_get har_data "log" (JObj []);
  _ ← py_get log "creator" (JObj []);
  log ← py_get har_data "log" (JObj []);
  entries ← py_get log "entries" (JArr []);
  total ← py_len entries;
  n_images ← count_content_type "image" extracted_media;
  n_videos ← count_content_type "video" extracted_media;
  Ok (report_file,
      {| report_total_entries := total;
         report_total_media_found := List.length extracted_media;
         report_images := n_images;
         report_videos := n_videos;
         report_unique_urls := size found_urls |}).

(** the first loop of [process_har_data]: the dicts after their download
    and the files written, oldest first *)
Fixpoint download_all (E : Env) (extracted_media : list media_info)
  : list media_info * list (string * bytes) :=
  match extracted_media with
  | [] => ([], [])
  | m :: rest =>
      let '(m', w) := download_media E m in
      let '(ms, ws) := download_all E rest in
      (m' :: ms, option_list w ++ ws)
  end.

(** the dict [process_har_data] builds for a discovered url *)
Definition promoted (u : string) : media_info :=
  {| url := JStr u; content_type := JStr "image/jpeg";
     fields_of_entry := None; content := None; decoded_data := None;
     is_video_segment := false; segment_data := None; segment_type := None |}.

(** the loop over [self.found_urls], in the order the set is iterated *)
Fixpoint download_found (E : Env) (urls : list string) (extracted_media : list media_info)
  : list (string * bytes) :=
  match urls with
  | [] => []
  | u :: rest =>
      if existsb (fun m => is_str u (url m)) extracted_media
      then download_found E rest extracted_media
      else option_list (snd (download_media E (promoted u)))
             ++ download_found E rest extracted_media
  end.

(** the dict [process_har_data] returns *)
Record results := {
  success : bool;
  total_media_found : nat;
  downloaded_files : list string;
  combined_videos_count : nat;
  report_file : string;
  results_output_folder : string
}.

(** one run: the returned dict, together with what the run left behind *)
Record run := {
  run_results : results;
  run_media : list media_info;
  run_found_urls : gset string;
  run_files : list (string * bytes);
  run_report : analysis
}.

Definition process_har_data (E : Env) (har_data : json) (found_urls : gset string)
  : result run :=
  '(extracted_media, found_urls) ← extract_spotify_images E har_data found_urls;
  let '(extracted_media, fetched) := download_all E extracted_media in
  c ← combine_webm_segments E extracted_media;
  let promoted_files := download_found E (elements found_urls) extracted_media in
  '(report, numbers) ← save_analysis_report E har_data extracted_media found_urls;
  Ok {| run_results :=
          {| success := true;
             total_media_found := List.length extracted_media;
             downloaded_files :=
               map fst fetched ++ combined_videos c ++ map fst promoted_files;
             combined_videos_count := List.length (combined_videos c);
             report_file := report;
             results_output_folder := output_folder |};
        run_media := extracted_media;
        run_found_urls := found_urls;
        run_files := fetched ++ written c ++ promoted_files;
        run_report := numbers |}.

(** ** Vocabulary of the statements *)

(** [m] is filed under [key] by the first loop of [combine_webm_segments] *)
Definition in_group (key : string) (m : media_info) : bool :=
  match group_key m with
  | Ok (Some k) => String.eqb k key
  | _ => false
  end.

(** the group a run of candidates of one key builds up *)
Definition filed (ms : list media_info) (g : segment_group) : segment_group :=
  fold_left (fun g m => add_to_group m g) ms g.

(** the orders of the sort key *)
Definition key_le {A} (key : A -> N) (a b : A) : Prop := (key a <= key b)%N.

(** the candidate carries an embedded decoded payload *)
Definition is_embedded (m : media_info) : bool :=
  match decoded_data m with
  | Some _ => true
  | None => false
  end.

(** the bytes a candidate holds under ['segment_data'] *)
Definition segment_bytes (m : media_info) : bytes :=
  default [] (segment_data m).

(** a candidate as [extract_spotify_images] builds it: not yet fetched *)
Definition unfetched (m : media_info) : Prop :=
  is_video_segment m = false /\ segment_data m = None /\ segment_type m = None.

(** the header table of [get_file_extension], row by row in the order of
    the [if]/[elif] chain: the words looked for in the content type, and
    the extension of the row *)
Definition header_table : list (list string * string) :=
  [ (["jpeg"; "jpg"], ".jpg");
    (["png"], ".png");
    (["gif"], ".gif");
    (["webp"], ".webp");
    (["webm"], ".webm");
    (["mp4"], ".mp4") ].

(** a row matches a content type that holds one of its words *)
Definition row_matches (ct : string) (row : list string * string) : bool :=
  existsb (fun word => str_in word ct) (fst row).

(** the extension of the first row of the table that matches, if any *)
Definition first_row (ct : string) : option string :=
  option_map snd (List.find (row_matches ct) header_table).

(** the longest decimal string CPython's [int] converts: beyond it [int]
    raises [ValueError] (the default of [sys.set_int_max_str_digits]) *)
Definition int_max_str_digits : nat := 4300.

(** the digits [extract_segment_number] hands to [int], if the url has
    any, are few enough for [int] to convert them *)
Definition int_accepts (u : string) : bool :=
  match search_segment u with
  | Some digits => (String.length digits <=? int_max_str_digits)%nat
  | None => true
  end.

(** the sort key of a candidate can be computed: its url is a [str] and
    [int] accepts its digits *)
Definition number_readable (m : media_info) : bool :=
  match url m with
  | JStr u => int_accepts u
  | _ => false
  end.

(** the init candidate a group ends up with: the last one of the list *)
Definition last_init (ms : list media_info) : option media_info :=
  List.find is_init (rev ms).

(** the non-init candidates of a group in the order the second loop
    concatenates them *)
Definition media_segments (key : string) (extracted_media : list media_info)
  : list media_info :=
  sorted_by segment_number
    (List.filter (fun m => negb (is_init m))
       (List.filter (in_group key) extracted_media)).

(** CPython's default recursion limit, [sys.getrecursionlimit()] *)
Definition recursion_limit : nat := 1000.

(** frames set aside for what stands on the stack around the scan: the
    callers from the module down to [extract_api_image_references], and
    [is_spotify_image_url] with its generator below the deepest call; a run
    has fewer than ten of them *)
Definition frames_around_scan : nat := 100.

(** a value [find_images_in_json] walks through without reaching the
    interpreter's recursion limit: one frame per level of nesting *)
Definition within_recursion_limit (data : json) : Prop :=
  depth data + frames_around_scan <= recursion_limit.

(** the url the loop of [extract_spotify_images] reads from an entry *)
Definition request_url (entry : json) : result json :=
  request ← py_get entry "request" (JObj []);
  py_get request "url" (JStr "").

(** a header as the capture format has it: an object whose name, when
    present, is a [str] *)
Definition well_formed_header (header : json) : bool :=
  match header with
  | JObj fields =>
      match alist_get "name" fields with
      | None | Some (JStr _) => true
      | Some _ => false
      end
  | _ => false
  end.

(** the response of an entry as the capture format has it: absent, or an
    object whose headers, when present, are a list of well-formed headers
    and whose content, when present, is an object or a falsy value *)
Definition well_formed_response (entry : json) : bool :=
  match py_get entry "response" (JObj []) with
  | Ok (JObj fields) =>
      match alist_get "headers" fields with
      | None => true
      | Some (JArr hs) => forallb well_formed_header hs
      | Some _ => false
      end
      &&
      match alist_get "content" fields with
      | None | Some (JObj _) => true
      | Some c => negb (truthy c)
      end
  | _ => false
  end.

(** ** Worlds and captures for the examples *)

(** a world without network: every fetch fails, nothing decodes *)
Definition offline : Env :=
  {| b64decode := fun _ => Raise ValueError;
     utf8_decode := fun _ => Raise ValueError;
     json_loads := fun _ => Raise ValueError;
     urlparse_path := fun _ => Raise ValueError;
     requests_get := fun _ => Raise ValueError;
     now := 0;
     ffmpeg_ok := fun _ _ => false |}.

(** the path of a url of the shape scheme://host/path?query#fragment, as
    [urlparse] gives it *)
Fixpoint after_scheme (u : string) : string :=
  match u with
  | EmptyString => EmptyString
  | String c u' => if startswith "://" u then str_drop 3 u else after_scheme u'
  end.

Fixpoint from_slash (s : string) : string :=
  match s with
  | EmptyString => EmptyString
  | String c s' => if Ascii.eqb c "/" then s else from_slash s'
  end.

Definition simple_path (u : string) : string :=
  fst (str_span (fun c => negb (Ascii.eqb c "?" || Ascii.eqb c "#"))
         (from_slash (after_scheme u))).

(** the body the test server sends for a url: the bytes of the url, then
    101 zero bytes *)
Definition payload (u : string) : bytes :=
  map byte_of_ascii (list_ascii_of_string u) ++ repeat x00 101.

(** a server that answers every request with status 200 and [payload]; a
    url that names a webm file is served as video, any other as a JPEG
    image.  There is no ffmpeg. *)
Definition canvas_cdn : Env :=
  {| b64decode := fun _ => Raise ValueError;
     utf8_decode := fun _ => Raise ValueError;
     json_loads := fun _ => Raise ValueError;
     urlparse_path := fun u => Ok (simple_path u);
     requests_get := fun u =>
       Ok {| status_code := 200;
             header_content_type :=
               Some (if str_in "webm" u then "video/webm" else "image/jpeg");
             body := payload u |};
     now := 0;
     ffmpeg_ok := fun _ _ => false |}.

(** [canvas_cdn] with a base64 decoder that knows the text [GkU=] *)
Definition decoding_cdn : Env :=
  {| b64decode := fun text =>
       if String.eqb text "GkU=" then Ok [x1a; x45] else Raise ValueError;
     utf8_decode := utf8_decode canvas_cdn;
     json_loads := json_loads canvas_cdn;
     urlparse_path := urlparse_path canvas_cdn;
     requests_get := requests_get canvas_cdn;
     now := now canvas_cdn;
     ffmpeg_ok := ffmpeg_ok canvas_cdn |}.

(** a capture entry that only names a request url *)
Definition entry_of_url (u : string) : json :=
  JObj [("request", JObj [("url", JStr u)])].

(** a capture entry whose response body is embedded as base64 text *)
Definition embedded_entry (u : string) : json :=
  JObj [("request", JObj [("url", JStr u)]);
        ("response",
         JObj [("content", JObj [("encoding", JStr "base64"); ("text", JStr "GkU=")])])].

Definition capture (entries : list json) : json :=
  JObj [("log", JObj [("entries", JArr entries)])].

Definition media_of (r : result (list media_info * gset string)) : list media_info :=
  match r with
  | Ok (l, _) => l
  | Raise _ => []
  end.

(** the candidates of a capture after the download loop of a run *)
Definition resolved (E : Env) (har_data : json) : list media_info :=
  fst (download_all E (media_of (extract_spotify_images E har_data ∅))).

(** the candidate a run against [canvas_cdn] leaves for an entry that names
    the url [u] *)
Definition fetched (u : string) : media_info :=
  default (promoted u) (head (resolved canvas_cdn (capture [entry_of_url u]))).

(** two streams of the fragmented-video host *)
Definition canvas_base : string :=
  "https://video-akpcw.spotifycdn.com/segments/v1/origins/1/sources/ab12cd/encodings/7/profiles/11/".

Definition other_base : string :=
  "https://video-akpcw.spotifycdn.com/segments/v1/origins/1/sources/ff00/encodings/7/profiles/3/".

(** a capture that names the segments 2, 0 and 1 of a stream in that order,
    its init segment between them, and a segment of another stream *)
Definition scrambled_capture : json :=
  capture [ entry_of_url (canvas_base ++ "2.webm");
            entry_of_url (other_base ++ "0.webm");
            entry_of_url (canvas_base ++ "0.webm");
            entry_of_url (canvas_base ++ "inits/webm.webm");
            entry_of_url (canvas_base ++ "1.webm") ].

(** a capture with a segment numbered 3 *)
Definition long_capture : json :=
  capture [ entry_of_url (canvas_base ++ "3.webm");
            entry_of_url (canvas_base ++ "inits/webm.webm");
            entry_of_url (canvas_base ++ "0.webm") ].

(** a capture with two embedded bodies and one body to fetch *)
Definition embedded_capture : json :=
  capture [ embedded_entry (canvas_base ++ "inits/webm.webm");
            entry_of_url (canvas_base ++ "0.webm");
            embedded_entry (canvas_base ++ "1.webm") ].

(** a capture whose entries are an image request to each image host *)
Definition image_host_capture : json :=
  capture (map entry_of_url spotify_image_domains).

(** a capture whose request urls are the image hosts, the first entry with
    [null] for a response *)
Definition null_response_capture : json :=
  capture (JObj [("request", JObj [("url", JStr "i.scdn.co")]); ("response", JNull)]
           :: map entry_of_url (tl spotify_image_domains)).

(** the url https://i.scdn.co/image/caf followed by the letter U+00E9 *)
Definition cafe_url : string :=
  ("https://i.scdn.co/image/caf" ++ String (ascii_of_N 233) EmptyString)%string.

(** the text of the pattern-scan example *)
Definition sample_text : string :=
  "ab67616d00112233445566778899aabbccddeeff0011223344".

(** the two identifiers the patterns find in it *)
Definition id39 : string := "ab67616d00112233445566778899aabbccddeef".
Definition id40 : string := "ab67616d00112233445566778899aabbccddeeff".

(** ** Vocabulary of the further statements *)

(** [s] is collected from [data]: it is a [str] stored under a curated key
    of an object that is reached from [data] through list elements and
    through values stored under other keys, and it names an image host *)
Inductive collectable : json -> string -> Prop :=
  | collectable_here (fields : list (string * json)) (key s : string) :
      In (key, JStr s) fields ->
      is_image_key key = true ->
      is_spotify_image_url (JStr s) = Ok true ->
      collectable (JObj fields) s
  | collectable_field (fields : list (string * json)) (key : string) (value : json)
      (s : string) :
      In (key, value) fields ->
      is_image_key key = false ->
      collectable value s ->
      collectable (JObj fields) s
  | collectable_item (items : list json) (item : json) (s : string) :
      In item items ->
      collectable item s ->
      collectable (JArr items) s.

(** every url of the set names an image host *)
Definition image_urls_only (found_urls : gset string) : Prop :=
  forall u, u ∈ found_urls -> is_spotify_image_url (JStr u) = Ok true.

(** a value that is neither a [str] nor a container *)
Definition is_scalar (v : json) : bool :=
  match v with
  | JNull | JBool _ | JInt _ | JFloat _ => true
  | _ => false
  end.


(** a world whose only API body is the text [artist], which parses to an
    object with an image url under a curated key and one under another key *)
Definition api_world : Env :=
  {| b64decode := b64decode offline;
     utf8_decode := utf8_decode offline;
     json_loads := fun text =>
       if String.eqb text "artist"
       then Ok (JObj [("name", JStr "x");
                      ("image", JStr "https://i.scdn.co/image/abc");
                      ("url", JStr "https://i.scdn.co/image/def")])
       else Raise ValueError;
     urlparse_path := urlparse_path offline;
     requests_get := requests_get offline;
     now := now offline;
     ffmpeg_ok := ffmpeg_ok offline |}.

(** a capture with one API entry, whose body is [text] *)
Definition api_capture (text : string) : json :=
  capture [ JObj [("request", JObj [("url", JStr "https://api.spotify.com/v1/artists/1")]);
                  ("response", JObj [("content", JObj [("text", JStr text)])])] ].

(** what one scan may do to the set: it keeps every url, and it keeps the
    set a set of image-host urls *)
Definition grows_by_image_urls (before after : gset string) : Prop :=
  before ⊆ after /\ (image_urls_only before -> image_urls_only after).


(** entries of every kind: not an object, a request that is not an object,
    an image request, and a video request whose response is a [str] *)
Definition mixed_entries : list json :=
  [ JInt 7;
    JObj [("request", JNull)];
    entry_of_url "https://i.scdn.co/image/x";
    JObj [("request", JObj [("url", JStr "https://canvaz.scdn.co/a.mp4")]);
          ("response", JStr "gone")] ].


(** the state of a candidate after its download: untouched, or a fetched
    segment with a [str] url that holds the body the server returned for
    that url, a body of more than 100 bytes sent with status 200, and that
    has the role of the url and no embedded payload *)
Definition fetched_state (E : Env) (m : media_info) : Prop :=
  unfetched m \/
  (is_video_segment m = true /\
   exists u r, url m = JStr u /\ requests_get E u = Ok r /\
               status_code r = 200%Z /\ 100 < List.length (body r) /\
               segment_data m = Some (body r) /\
               segment_type m = Some (segment_role_of_url u) /\
               decoded_data m = None).

(** a server whose bodies are exactly 100 bytes long *)
Definition short_cdn : Env :=
  {| b64decode := b64decode canvas_cdn;
     utf8_decode := utf8_decode canvas_cdn;
     json_loads := json_loads canvas_cdn;
     urlparse_path := urlparse_path canvas_cdn;
     requests_get := fun u =>
       Ok {| status_code := 200;
             header_content_type := Some "video/webm";
             body := repeat x00 100 |};
     now := now canvas_cdn;
     ffmpeg_ok := ffmpeg_ok canvas_cdn |}.

(** an image entry whose content-type header has the value [null] *)
Definition null_content_type_entry : json :=
  JObj [("request", JObj [("url", JStr "https://i.scdn.co/image/x")]);
        ("response",
         JObj [("headers", JArr [JObj [("name", JStr "Content-Type"); ("value", JNull)]])])].


(** the candidates of a list with the sort key [k], in the order of the list *)
Definition with_number (k : N) (l : list media_info) : list media_info :=
  List.filter (fun m => (segment_number m =? k)%N) l.

(** two init segments and two media segments of one stream, the media
    segments without a number in their url *)
Definition two_inits : list media_info :=
  [ fetched (canvas_base ++ "inits/a.webm");
    fetched (canvas_base ++ "b.webm");
    fetched (canvas_base ++ "inits/c.webm");
    fetched (canvas_base ++ "a.webm") ].


(** [/] or [\], the separators of a path *)
Definition is_separator (c : ascii) : bool :=
  (code c =? 47)%N || (code c =? 92)%N.

Definition is_slash (c : ascii) : bool := Ascii.eqb c "/".

(** [base_name.rsplit('.', 1)[0]] when there is a dot, [base_name] itself
    when there is none *)
Definition stem (base_name : string) : string :=
  match before_last "." base_name with
  | Some s => s
  | None => base_name
  end.


(** a prefix that is empty or ends with the separator *)
Definition dir_prefix (c : ascii) (a : string) : Prop :=
  a = "" \/ exists b, a = (b ++ String c "")%string.


(** ** Loading a capture

    [read_text] stands for opening the file at a path and reading it as
    UTF-8 text; it raises when that fails. *)

(** [load_har_file]: [None] when reading or parsing raised *)
Definition load_har_file (E : Env) (read_text : string -> result string)
    (har_path : string) : option json :=
  match text ← read_text har_path; json_loads E text with
  | Ok har_data => Some har_data
  | Raise _ => None
  end.

(** [load_har_from_json_string] *)
Definition load_har_from_json_string (E : Env) (har_json : string) : option json :=
  match json_loads E har_json with
  | Ok har_data => Some har_data
  | Raise _ => None
  end.

(** what [process_har_file] returns: the dict of a run, or the dict with
    [success] unset and an error text *)
Inductive outcome : Type :=
  | Ran (r : run)
  | Failed (error : string).

Definition process_har_file (E : Env) (read_text : string -> result string)
    (har_path : string) (found_urls : gset string) : result outcome :=
  match load_har_file E read_text har_path with
  | Some har_data =>
      if truthy har_data
      then r ← process_har_data E har_data found_urls; Ok (Ran r)
      else Ok (Failed "Failed to load HAR file")
  | None => Ok (Failed "Failed to load HAR file")
  end.

(** the name [convert_to_mp4] gives the converted file of a group *)
Definition mp4_path_of (key : string) : string :=
  path_join videos_folder ("spotify_canvas_" ++ key ++ ".mp4")%string.

(** a world with one file, [empty.har], whose text parses to the empty
    object *)
Definition empty_file_world : Env :=
  {| b64decode := b64decode offline;
     utf8_decode := utf8_decode offline;
     json_loads := fun text => if String.eqb text "{}" then Ok (JObj []) else Raise ValueError;
     urlparse_path := urlparse_path offline;
     requests_get := requests_get offline;
     now := now offline;
     ffmpeg_ok := ffmpeg_ok offline |}.

Definition one_file (path : string) : result string :=
  if String.eqb path "empty.har" then Ok "{}" else Raise ValueError.

(** an image entry with an embedded body and a content-type header whose
    value is [null], and the candidate made from it *)
Definition embedded_null_entry : json :=
  JObj [("request", JObj [("url", JStr "https://i.scdn.co/image/x")]);
        ("response",
         JObj [("headers", JArr [JObj [("name", JStr "content-type"); ("value", JNull)]]);
               ("content", JObj [("encoding", JStr "base64"); ("text", JStr "GkU=")])])].

Definition embedded_null_candidate : media_info :=
  default (promoted "")
    (head (media_of (extract_spotify_images decoding_cdn (capture [embedded_null_entry]) ∅))).

(** an embedded image served as [Image/PNG], with a body that is no image *)
Definition embedded_png_entry : json :=
  JObj [("request", JObj [("url", JStr "https://i.scdn.co/image/cover.one")]);
        ("response",
         JObj [("headers", JArr [JObj [("name", JStr "Content-Type"); ("value", JStr "Image/PNG")]]);
               ("content", JObj [("encoding", JStr "base64"); ("text", JStr "GkU=")])])].

Definition embedded_png_candidate : media_info :=
  default (promoted "")
    (head (media_of (extract_spotify_images decoding_cdn (capture [embedded_png_entry]) ∅))).


(** [offline] with the path parser of [canvas_cdn] and the decoder of
    [decoding_cdn]: nothing can be fetched *)
Definition offline_paths : Env :=
  {| b64decode := b64decode decoding_cdn;
     utf8_decode := utf8_decode offline;
     json_loads := json_loads offline;
     urlparse_path := urlparse_path canvas_cdn;
     requests_get := requests_get offline;
     now := now offline;
     ffmpeg_ok := ffmpeg_ok offline |}.

(** * Properties *)

(** unfold the sequencing of [result] *)
Ltac run_binds := unfold mbind, result_bind; cbn beta iota zeta.

(** ** Content kind *)

Lemma any_in_str (domains : list string) (s : string) :
  any_in domains (JStr s) = Ok (existsb (fun d => str_in d s) domains).
Proof.
  induction domains as [|d ds IH]; simpl; [reflexivity|].
  unfold por; simpl. rewrite IH. destruct (str_in d s); reflexivity.
Qed.

Lemma sniff_extension_range (data : bytes) :
  In (sniff_extension data) file_extensions.
Proof.
  unfold sniff_extension, file_extensions.
  repeat match goal with
         | |- context [if ?b then _ else _] => destruct b
         end; simpl; tauto.
Qed.

(** every extension [get_file_extension] returns is one of the seven *)
Lemma get_file_extension_range (ct : string) (data : bytes) :
  exists ext, get_file_extension (JStr ct) data = Ok ext /\ In ext file_extensions.
Proof.
  unfold get_file_extension, por; simpl.
  pose proof (sniff_extension_range data) as Hs.
  repeat match goal with
         | |- context [if ?b then _ else _] => destruct b; simpl
         end;
    eexists; (split; [reflexivity|]); simpl; auto 10.
Qed.

(** C4, as the claim words it, fails: a header that holds [png] and also
    [jpeg] resolves to [.jpg], on bytes that begin with the JPEG marker. *)
Lemma get_file_extension_png_and_jpeg_header :
  str_in "png" "image/png;source=jpeg" = true /\
  bytes_startswith b_jpeg [xff; xd8; xff; xe0] = true /\
  get_file_extension (JStr "image/png;source=jpeg") [xff; xd8; xff; xe0] = Ok ".jpg".
Proof. repeat split. Qed.

(** C4 (amended): the header table is consulted first, in its order, and
    the bytes are only looked at when no row of it matches.  When a row of
    the table matches the content type, the extension is that of the first
    such row in the order jpeg/jpg, png, gif, webp, webm, mp4, whatever the
    bytes are; when no row matches, the extension is the one the magic
    bytes give.  So a content type that holds [png] and neither [jpeg] nor
    [jpg] resolves to [.png], also on bytes that begin with the JPEG
    marker. *)
Theorem get_file_extension_header_wins (ct : string) (data : bytes) :
  (forall ext, first_row ct = Some ext ->
     get_file_extension (JStr ct) data = Ok ext) /\
  (first_row ct = None ->
     get_file_extension (JStr ct) data = Ok (sniff_extension data)) /\
  (str_in "png" ct = true -> str_in "jpeg" ct = false -> str_in "jpg" ct = false ->
     get_file_extension (JStr ct) data = Ok ".png").
Proof.
  assert (H : get_file_extension (JStr ct) data
              = Ok (match first_row ct with
                    | Some ext => ext
                    | None => sniff_extension data
                    end)).
  { unfold get_file_extension, por, first_row, header_table, row_matches.
    cbn [py_in List.find existsb fst snd]. run_binds.
    destruct (str_in "jpeg" ct); [reflexivity|].
    destruct (str_in "jpg" ct); [reflexivity|].
    destruct (str_in "png" ct); [reflexivity|].
    destruct (str_in "gif" ct); [reflexivity|].
    destruct (str_in "webp" ct); [reflexivity|].
    destruct (str_in "webm" ct); [reflexivity|].
    destruct (str_in "mp4" ct); reflexivity. }
  split; [|split].
  - intros ext Hrow. rewrite H, Hrow. reflexivity.
  - intros Hrow. rewrite H, Hrow. reflexivity.
  - intros Hpng Hjpeg Hjpg. rewrite H.
    unfold first_row, header_table, row_matches. cbn [List.find existsb fst snd].
    rewrite Hjpeg, Hjpg, Hpng. reflexivity.
Qed.

Lemma get_file_extension_header_wins_witness :
  bytes_startswith b_jpeg [xff; xd8; xff; xe0] = true /\
  get_file_extension (JStr "image/png") [xff; xd8; xff; xe0] = Ok ".png" /\
  get_file_extension (JStr "video/webm; codecs=vp9") [xff; xd8; xff; xe0] = Ok ".webm" /\
  get_file_extension (JStr "application/octet-stream") [xff; xd8; xff; xe0] = Ok ".jpg".
Proof.
  split; [reflexivity|]. split; [|split].
  - exact (proj2 (proj2 (get_file_extension_header_wins "image/png" [xff; xd8; xff; xe0]))
             eq_refl eq_refl eq_refl).
  - exact (proj1 (get_file_extension_header_wins "video/webm; codecs=vp9"
                    [xff; xd8; xff; xe0]) ".webm" eq_refl).
  - exact (proj1 (proj2 (get_file_extension_header_wins "application/octet-stream"
                           [xff; xd8; xff; xe0])) eq_refl).
Defined.

(** ** Free-text scan *)

Lemma findall_sample_1 : findall_lit_hex "ab67616" 32 0 sample_text = [id39].
Proof. vm_compute. reflexivity. Qed.

Lemma findall_sample_2 : findall_lit_hex "ab6761610000" 24 0 sample_text = [].
Proof. vm_compute. reflexivity. Qed.

Lemma findall_sample_3 : findall_lit_hex "ab67616d" 32 0 sample_text = [id40].
Proof. vm_compute. reflexivity. Qed.

(** C3, as the claim words it, fails: the scan of the sample text leaves a
    url built from a second, 39-character identifier in the set, so the set
    is not the three urls of the one 40-character identifier. *)
Lemma find_image_patterns_sample_not_three :
  ("https://i.scdn.co/image/" ++ id39)%string
    ∈ find_image_patterns_in_text sample_text ∅ /\
  find_image_patterns_in_text sample_text ∅
    <> list_to_set (image_urls id40).
Proof.
  assert (H : ("https://i.scdn.co/image/" ++ id39)%string
                ∈ find_image_patterns_in_text sample_text ∅).
  { apply elem_of_elements. vm_compute. repeat constructor. }
  split; [exact H|].
  intros Heq. rewrite Heq in H. clear Heq.
  apply elem_of_list_to_set in H. revert H.
  apply (proj1 (bool_decide_eq_false _)). vm_compute. reflexivity.
Qed.

(** C3 (amended): on the sample text the scan adds exactly six urls, the
    three templates applied to the 39-character match of the first pattern
    and to the 40-character match of the third pattern; the second pattern
    matches nothing. *)
Theorem find_image_patterns_sample (found_urls : gset string) :
  find_image_patterns_in_text sample_text found_urls
    = list_to_set (image_urls id39 ++ image_urls id40) ∪ found_urls
  /\ size (find_image_patterns_in_text sample_text ∅) = 6%nat.
Proof.
  split.
  - unfold find_image_patterns_in_text, patterns.
    cbn [fold_left fst snd].
    rewrite findall_sample_1, findall_sample_2, findall_sample_3.
    unfold add_all, image_urls. cbn [fold_left app list_to_set].
    apply set_eq; intros x.
    rewrite !elem_of_union, !elem_of_singleton, elem_of_empty. tauto.
  - vm_compute. reflexivity.
Qed.

(** ** Filenames *)

Lemma str_all_app (p : ascii -> bool) (a b : string) :
  str_all p (a ++ b)%string = str_all p a && str_all p b.
Proof.
  induction a as [|c a IH]; simpl; [reflexivity|].
  rewrite IH. apply andb_assoc.
Qed.

Lemma str_all_impl (p q : ascii -> bool) (s : string) :
  (forall c, p c = true -> q c = true) ->
  str_all p s = true -> str_all q s = true.
Proof.
  intros Hpq. induction s as [|c s IH]; simpl; [reflexivity|].
  intros [Hc Hs]%andb_prop. rewrite (Hpq c Hc), (IH Hs). reflexivity.
Qed.

Lemma str_all_lstrip (p : ascii -> bool) (c : ascii) (s : string) :
  str_all p s = true -> str_all p (lstrip_char c s) = true.
Proof.
  induction s as [|a s IH]; simpl; [reflexivity|].
  intros H. destruct (Ascii.eqb a c); [|exact H].
  apply andb_prop in H. tauto.
Qed.

Lemma str_all_rstrip (p : ascii -> bool) (c : ascii) (s : string) :
  str_all p s = true -> str_all p (rstrip_char c s) = true.
Proof.
  induction s as [|a s IH]; simpl; [reflexivity|].
  intros [Ha Hs]%andb_prop.
  destruct (String.eqb (rstrip_char c s) "" && Ascii.eqb a c); simpl;
    [reflexivity|].
  rewrite Ha, (IH Hs). reflexivity.
Qed.

Lemma str_all_split (p : ascii -> bool) (c : ascii) (s : string) :
  str_all p s = true -> Forall (fun part => str_all p part = true) (split_char c s).
Proof.
  induction s as [|a s IH]; simpl; intros H.
  - repeat constructor.
  - apply andb_prop in H as [Ha Hs]. specialize (IH Hs).
    destruct (Ascii.eqb a c).
    + constructor; [reflexivity|exact IH].
    + destruct (split_char c s) as [|h t].
      * repeat constructor. simpl. rewrite Ha. reflexivity.
      * inversion IH; subst. constructor; [|assumption].
        simpl. rewrite Ha. assumption.
Qed.

Lemma Forall_last {A} (P : A -> Prop) (l : list A) (d : A) :
  P d -> Forall P l -> P (List.last l d).
Proof.
  intros Hd Hl. induction Hl as [|x l Hx Hl IH]; simpl; [exact Hd|].
  destruct l; [exact Hx|exact IH].
Qed.

Lemma str_all_before_last (p : ascii -> bool) (c : ascii) (s stem : string) :
  str_all p s = true -> before_last c s = Some stem -> str_all p stem = true.
Proof.
  revert stem. induction s as [|a s IH]; simpl; intros stem H Hb; [discriminate|].
  apply andb_prop in H as [Ha Hs].
  destruct (before_last c s) as [r|].
  - injection Hb as <-. simpl. rewrite Ha. apply (IH r Hs eq_refl).
  - destruct (Ascii.eqb a c); [|discriminate]. injection Hb as <-. reflexivity.
Qed.

Lemma str_all_uint (d : Decimal.uint) :
  str_all is_ascii_char (NilEmpty.string_of_uint d) = true.
Proof. induction d; simpl; auto. Qed.

Lemma str_all_str_of_int (n : Z) :
  str_all is_ascii_char (str_of_int n) = true.
Proof.
  unfold str_of_int, NilZero.string_of_int.
  destruct (Z.to_int n) as [d|d]; unfold NilZero.string_of_uint.
  - destruct d; try reflexivity; apply (str_all_uint (_ _)).
  - simpl. destruct d; try reflexivity; apply (str_all_uint (_ _)).
Qed.

Lemma keeps_cases (c : ascii) :
  keeps c = true -> is_safe_char c || is_alnum c = true.
Proof.
  destruct c as [[] [] [] [] [] [] [] []]; vm_compute; auto.
Qed.

Lemma keeps_ascii (c : ascii) :
  is_ascii_char c = true -> keeps c = true -> is_safe_char c = true.
Proof.
  destruct c as [[] [] [] [] [] [] [] []]; vm_compute; auto.
Qed.

Lemma sanitize_chars (s : string) :
  str_all (fun c => is_safe_char c || is_alnum c) (sanitize s) = true.
Proof.
  unfold sanitize. induction s as [|c s IH]; cbn [str_map str_all]; [reflexivity|].
  rewrite IH, andb_true_r.
  destruct (keeps c) eqn:Hk; [apply keeps_cases; exact Hk|reflexivity].
Qed.

Lemma sanitize_ascii (s : string) :
  str_all is_ascii_char s = true -> str_all is_safe_char (sanitize s) = true.
Proof.
  unfold sanitize. induction s as [|c s IH]; cbn [str_map str_all]; [reflexivity|].
  intros [Hc Hs]%andb_prop. rewrite (IH Hs), andb_true_r.
  destruct (keeps c) eqn:Hk; [apply keeps_ascii; assumption|reflexivity].
Qed.

Lemma file_extensions_safe (ext : string) :
  In ext file_extensions -> str_all is_safe_char ext = true /\ ext <> "".
Proof.
  unfold file_extensions; simpl.
  intros H; repeat destruct H as [<-|H]; try (split; [reflexivity|discriminate]).
  destruct H.
Qed.

(** the name before sanitisation comes from the path or from the clock *)
Lemma base_name_ascii (path : string) (now : Z) :
  str_all is_ascii_char path = true ->
  let last_part := List.last (split_char "/" (strip_char "/" path)) "" in
  str_all is_ascii_char
    (if negb (String.eqb last_part "")
     then match before_last "." last_part with
          | Some stem => stem
          | None => last_part
          end
     else ("spotify_media_" ++ str_of_int now)%string) = true.
Proof.
  intros Hp last_part.
  assert (Hl : str_all is_ascii_char last_part = true).
  { apply Forall_last; [reflexivity|].
    apply str_all_split, str_all_rstrip, str_all_lstrip, Hp. }
  destruct (negb (String.eqb last_part "")).
  - destruct (before_last "." last_part) as [stem|] eqn:Hb; [|exact Hl].
    apply (str_all_before_last _ _ _ _ Hl Hb).
  - rewrite str_all_app, str_all_str_of_int. reflexivity.
Qed.

(** C8, as the claim words it, fails: the letter U+00E9 at the end of the
    url is a word character, is kept, and lies outside [[A-Za-z0-9_.-]]. *)
Lemma generate_filename_keeps_letter :
  In ".jpg" file_extensions /\
  exists name,
    generate_filename canvas_cdn (JStr cafe_url) ".jpg" = Ok name /\
    str_all is_safe_char name = false.
Proof.
  split; [simpl; tauto|].
  eexists. split; [vm_compute; reflexivity|vm_compute; reflexivity].
Qed.

(** C8 (amended): for a url that [urlparse] accepts and an extension
    [get_file_extension] can return, the generated filename is never empty
    and each of its characters is in [[A-Za-z0-9_.-]] or is alphanumeric;
    when the path of the url holds ASCII characters only, every character
    is in [[A-Za-z0-9_.-]]. *)
Theorem generate_filename_safe (E : Env) (u path ext : string) :
  In ext file_extensions ->
  urlparse_path E u = Ok path ->
  exists name,
    generate_filename E (JStr u) ext = Ok name /\
    name <> "" /\
    str_all (fun c => is_safe_char c || is_alnum c) name = true /\
    (str_all is_ascii_char path = true -> str_all is_safe_char name = true).
Proof.
  intros [Hext Hne]%file_extensions_safe Hpath.
  unfold generate_filename, parsed_path. rewrite Hpath. run_binds.
  eexists. split; [reflexivity|]. repeat split.
  - intros Heq. destruct (sanitize _); [exact (Hne Heq)|discriminate].
  - rewrite str_all_app, sanitize_chars. simpl.
    apply (str_all_impl is_safe_char); [|exact Hext].
    intros c ->. reflexivity.
  - intros Hp. rewrite str_all_app, Hext, andb_true_r.
    apply sanitize_ascii, base_name_ascii, Hp.
Qed.

Lemma generate_filename_safe_witness :
  exists name,
    generate_filename canvas_cdn
      (JStr "https://i.scdn.co/image/ab67616d0000b273 cover.jpeg?v=2") ".jpg" = Ok name /\
    name <> "" /\
    str_all (fun c => is_safe_char c || is_alnum c) name = true /\
    (str_all is_ascii_char "/image/ab67616d0000b273 cover.jpeg" = true ->
     str_all is_safe_char name = true).
Proof.
  apply (generate_filename_safe canvas_cdn
           "https://i.scdn.co/image/ab67616d0000b273 cover.jpeg?v=2"
           "/image/ab67616d0000b273 cover.jpeg" ".jpg").
  - simpl. tauto.
  - reflexivity.
Defined.

(** ** Structured scan *)

(** induction over parsed values, with the hypothesis on every element *)
Lemma json_nested_ind (P : json -> Prop) :
  P JNull ->
  (forall b, P (JBool b)) ->
  (forall z, P (JInt z)) ->
  (forall q, P (JFloat q)) ->
  (forall s, P (JStr s)) ->
  (forall items, Forall P items -> P (JArr items)) ->
  (forall fields, Forall (fun kv => P (snd kv)) fields -> P (JObj fields)) ->
  forall v, P v.
Proof.
  intros Hnull Hbool Hint Hfloat Hstr Harr Hobj.
  fix IH 1. intros [| b | z | q | s | items | fields].
  - exact Hnull.
  - apply Hbool.
  - apply Hint.
  - apply Hfloat.
  - apply Hstr.
  - apply Harr. induction items as [|x items IHl];
      [constructor|constructor; [apply IH|exact IHl]].
  - apply Hobj. induction fields as [|[k x] fields IHl];
      [constructor|constructor; [apply IH|exact IHl]].
Qed.

Lemma fold_left_ext_Forall {A B} (f g : A -> B -> A) (P : B -> Prop) (l : list B) :
  Forall P l ->
  (forall a b, P b -> f a b = g a b) ->
  forall a, fold_left f l a = fold_left g l a.
Proof.
  intros Hl Hfg. induction Hl as [|x l Hx Hl IH]; intros a; simpl; [reflexivity|].
  rewrite (Hfg a x Hx). apply IH.
Qed.

Lemma depth_items_le (items : list json) (limit : nat) :
  depth (JArr items) <= S limit -> Forall (fun item => depth item <= limit) items.
Proof.
  simpl. intros H%le_S_n. induction items as [|x items IH]; [constructor|].
  simpl in H. constructor; [lia|apply IH; lia].
Qed.

Lemma depth_fields_le (fields : list (string * json)) (limit : nat) :
  depth (JObj fields) <= S limit ->
  Forall (fun kv => depth (snd kv) <= limit) fields.
Proof.
  simpl. intros H%le_S_n. induction fields as [|x fields IH]; [constructor|].
  simpl in H. constructor; [lia|apply IH; lia].
Qed.

Lemma find_images_in_json_nest (n : nat) (v : json) (found_urls : gset string) :
  find_images_in_json (nest n v) found_urls = find_images_in_json v found_urls.
Proof. induction n as [|n IH]; simpl; [reflexivity|exact IH]. Qed.

Lemma scan_depth_bounded_nest (n : nat) (v : json) (found_urls : gset string) :
  scan_depth_bounded n (nest n v) found_urls = found_urls.
Proof.
  revert found_urls. induction n as [|n IH]; intros found_urls; simpl;
    [reflexivity|apply IH].
Qed.

(** C9, as the claim words it, fails: a url under 65 levels of nesting is
    still collected, while a scan that stops at depth 64 never reaches it. *)
Lemma find_images_in_json_beyond_64 :
  find_images_in_json (nest 65 (JObj [("image", JStr "https://i.scdn.co/image/x")])) ∅
    = {["https://i.scdn.co/image/x"]} /\
  scan_depth_bounded 64 (nest 65 (JObj [("image", JStr "https://i.scdn.co/image/x")])) ∅
    = ∅ /\
  find_images_in_json (nest 65 (JObj [("image", JStr "https://i.scdn.co/image/x")])) ∅
    <> scan_depth_bounded 64 (nest 65 (JObj [("image", JStr "https://i.scdn.co/image/x")])) ∅.
Proof.
  assert (H1 : find_images_in_json
                 (nest 65 (JObj [("image", JStr "https://i.scdn.co/image/x")])) ∅
               = {["https://i.scdn.co/image/x"]}).
  { rewrite find_images_in_json_nest. vm_compute. reflexivity. }
  assert (H2 : scan_depth_bounded 64
                 (nest 65 (JObj [("image", JStr "https://i.scdn.co/image/x")])) ∅
               = ∅).
  { change (nest 65 ?v) with (nest 64 (JArr [v])). apply scan_depth_bounded_nest. }
  split; [exact H1|split; [exact H2|]].
  rewrite H1, H2. intros H.
  assert (Hin : "https://i.scdn.co/image/x" ∈ (∅ : gset string)).
  { rewrite <- H. apply elem_of_singleton. reflexivity. }
  exact (not_elem_of_empty _ Hin).
Qed.

(** C9 (amended): the scan carries no depth limit of its own.  On a value
    that nests no deeper than [limit], and that the interpreter walks
    through without reaching its recursion limit, [find_images_in_json]
    leaves the same urls in the set as a scan cut off at depth [limit]. *)
Theorem find_images_in_json_visits_all (data : json) (limit : nat)
    (found_urls : gset string) :
  within_recursion_limit data ->
  depth data <= limit ->
  scan_depth_bounded limit data found_urls = find_images_in_json data found_urls.
Proof.
  intros _. revert limit found_urls.
  induction data as [| b | z | q | s | items IH | fields IH] using json_nested_ind;
    intros limit found_urls Hd;
    try (destruct limit; reflexivity).
  - destruct limit as [|limit]; [simpl in Hd; lia|].
    apply depth_items_le in Hd. simpl.
    apply (fold_left_ext_Forall _ _ (fun item => depth item <= limit /\
             forall l f, depth item <= l ->
               scan_depth_bounded l item f = find_images_in_json item f)).
    + rewrite Forall_forall in *. intros x Hx. split; [apply Hd|apply IH]; exact Hx.
    + intros a b [Hb Hscan]. apply Hscan, Hb.
  - destruct limit as [|limit]; [simpl in Hd; lia|].
    apply depth_fields_le in Hd. simpl.
    apply (fold_left_ext_Forall _ _ (fun kv => depth (snd kv) <= limit /\
             forall l f, depth (snd kv) <= l ->
               scan_depth_bounded l (snd kv) f = find_images_in_json (snd kv) f)).
    + rewrite Forall_forall in *. intros x Hx. split; [apply Hd|apply IH]; exact Hx.
    + intros a [k v] [Hb Hscan]. simpl in *.
      destruct (is_image_key k); [reflexivity|].
      destruct v; try reflexivity; apply Hscan, Hb.
Qed.

Lemma find_images_in_json_visits_all_witness :
  scan_depth_bounded 3
    (JObj [("album", JArr [JObj [("image", JStr "https://i.scdn.co/image/x")]])]) ∅
  = find_images_in_json
    (JObj [("album", JArr [JObj [("image", JStr "https://i.scdn.co/image/x")]])]) ∅.
Proof.
  apply (find_images_in_json_visits_all
           (JObj [("album", JArr [JObj [("image", JStr "https://i.scdn.co/image/x")]])])
           3 ∅).
  - unfold within_recursion_limit, recursion_limit, frames_around_scan. simpl. lia.
  - simpl. lia.
Defined.

(** ** Assembly *)

Lemma alist_get_set_eq {A} (k : string) (v : A) (l : list (string * A)) :
  alist_get k (alist_set k v l) = Some v.
Proof.
  induction l as [|[k' v'] l IH]; simpl.
  - rewrite String.eqb_refl. reflexivity.
  - destruct (String.eqb k k') eqn:Hk; simpl.
    + rewrite String.eqb_refl. reflexivity.
    + rewrite Hk. exact IH.
Qed.

Lemma alist_get_set_ne {A} (k k' : string) (v : A) (l : list (string * A)) :
  k <> k' -> alist_get k' (alist_set k v l) = alist_get k' l.
Proof.
  intros Hne. induction l as [|[k0 v0] l IH]; simpl.
  - destruct (String.eqb_spec k' k); [congruence|reflexivity].
  - destruct (String.eqb_spec k k0) as [->|Hk]; simpl.
    + destruct (String.eqb_spec k' k0); [congruence|reflexivity].
    + destruct (String.eqb_spec k' k0); [reflexivity|exact IH].
Qed.

Lemma alist_get_In {A} (k : string) (v : A) (l : list (string * A)) :
  alist_get k l = Some v -> In (k, v) l.
Proof.
  induction l as [|[k' v'] l IH]; simpl; [discriminate|].
  destruct (String.eqb_spec k k') as [->|Hk].
  - intros [= ->]. left. reflexivity.
  - intros H. right. apply IH, H.
Qed.

Lemma alist_get_NoDup {A} (k : string) (v : A) (l : list (string * A)) :
  List.NoDup (map fst l) -> In (k, v) l -> alist_get k l = Some v.
Proof.
  induction l as [|[k' v'] l IH]; simpl; [tauto|].
  intros Hnd [Heq|Hin].
  - injection Heq as -> ->. rewrite String.eqb_refl. reflexivity.
  - apply List.NoDup_cons_iff in Hnd as [Hk' Hnd].
    destruct (String.eqb_spec k k') as [->|Hk].
    + exfalso. apply Hk'. apply (in_map fst) in Hin. exact Hin.
    + apply IH; assumption.
Qed.

Lemma alist_set_keys {A} (k : string) (v : A) (l : list (string * A)) (k' : string) :
  In k' (map fst (alist_set k v l)) -> k' = k \/ In k' (map fst l).
Proof.
  induction l as [|[k0 v0] l IH]; simpl.
  - intros [<-|[]]. left. reflexivity.
  - destruct (String.eqb_spec k k0) as [->|Hk]; simpl.
    + intros [<-|H]; [left; reflexivity|right; right; exact H].
    + intros [<-|H]; [right; left; reflexivity|].
      destruct (IH H) as [->|H']; [left; reflexivity|right; right; exact H'].
Qed.

Lemma alist_set_NoDup {A} (k : string) (v : A) (l : list (string * A)) :
  List.NoDup (map fst l) -> List.NoDup (map fst (alist_set k v l)).
Proof.
  induction l as [|[k0 v0] l IH]; simpl; intros Hnd.
  - constructor; [simpl; tauto|constructor].
  - apply List.NoDup_cons_iff in Hnd as [Hk0 Hnd].
    destruct (String.eqb_spec k k0) as [->|Hk]; simpl.
    + apply List.NoDup_cons_iff. split; assumption.
    + apply List.NoDup_cons_iff. split; [|apply IH, Hnd].
      intros H. apply alist_set_keys in H as [->|H]; [congruence|exact (Hk0 H)].
Qed.

Lemma group_segments_of_keys (l : list media_info) :
  forall groups groups',
  group_segments_of l groups = Ok groups' ->
  List.NoDup (map fst groups) -> List.NoDup (map fst groups').
Proof.
  induction l as [|m l IH]; simpl; intros groups groups' H Hnd.
  - injection H as <-. exact Hnd.
  - destruct (group_key m) as [[k|]|e]; simpl in H; [| |discriminate].
    + apply (IH _ _ H). apply alist_set_NoDup, Hnd.
    + apply (IH _ _ H Hnd).
Qed.

Lemma group_segments_of_get (key : string) (l : list media_info) :
  forall groups groups',
  group_segments_of l groups = Ok groups' ->
  alist_get key groups' =
    match List.filter (in_group key) l with
    | [] => alist_get key groups
    | ms => Some (filed ms (default empty_group (alist_get key groups)))
    end.
Proof.
  induction l as [|m l IH]; simpl; intros groups groups' H.
  - injection H as <-. reflexivity.
  - unfold in_group at 1. destruct (group_key m) as [[k|]|e]; simpl in H;
      [| |discriminate].
    + rewrite (IH _ _ H). unfold add_segment.
      destruct (String.eqb_spec k key) as [->|Hk].
      * rewrite alist_get_set_eq. simpl.
        destruct (List.filter (in_group key) l); reflexivity.
      * rewrite (alist_get_set_ne _ _ _ _ Hk). reflexivity.
    + apply (IH _ _ H).
Qed.

Lemma group_segments_of_ok (l : list media_info) :
  Forall (fun m => is_ok (group_key m) = true) l ->
  forall groups, exists groups', group_segments_of l groups = Ok groups'.
Proof.
  induction 1 as [|m l Hm Hl IH]; intros groups; simpl.
  - eexists. reflexivity.
  - destruct (group_key m) as [[k|]|e]; simpl; [apply IH|apply IH|discriminate].
Qed.

Lemma filed_segments (ms : list media_info) (g : segment_group) :
  group_segments (filed ms g)
  = group_segments g ++ List.filter (fun m => negb (is_init m)) ms.
Proof.
  revert g. induction ms as [|m ms IH]; intros g; simpl.
  - rewrite app_nil_r. reflexivity.
  - unfold filed in *. simpl. rewrite IH. unfold add_to_group.
    destruct (is_init m); simpl; [reflexivity|].
    rewrite <- app_assoc. reflexivity.
Qed.



(** *** The sort *)

Lemma insert_by_Permutation {A} (key : A -> N) (x : A) (l : list A) :
  Permutation (insert_by key x l) (x :: l).
Proof.
  induction l as [|y l IH]; simpl; [reflexivity|].
  destruct (key x <=? key y)%N; [reflexivity|].
  rewrite IH. constructor.
Qed.

Lemma sorted_by_Permutation {A} (key : A -> N) (l : list A) :
  Permutation (sorted_by key l) l.
Proof.
  induction l as [|x l IH]; simpl; [reflexivity|].
  rewrite insert_by_Permutation, IH. reflexivity.
Qed.

Lemma insert_by_sorted {A} (key : A -> N) (x : A) (l : list A) :
  StronglySorted (key_le key) l -> StronglySorted (key_le key) (insert_by key x l).
Proof.
  induction 1 as [|y l Hl IH Hy]; simpl.
  - repeat constructor.
  - destruct (N.leb_spec (key x) (key y)) as [Hxy|Hxy].
    + constructor; [constructor; assumption|].
      constructor; [exact Hxy|].
      rewrite List.Forall_forall in *. intros z Hz. specialize (Hy z Hz).
      unfold key_le in *. lia.
    + constructor; [exact IH|].
      rewrite List.Forall_forall in *. intros z Hz.
      apply (Permutation_in _ (insert_by_Permutation key x l)) in Hz.
      destruct Hz as [<-|Hz]; [unfold key_le; lia|apply Hy, Hz].
Qed.

Lemma sorted_by_sorted {A} (key : A -> N) (l : list A) :
  StronglySorted (key_le key) (sorted_by key l).
Proof.
  induction l as [|x l IH]; simpl; [constructor|apply insert_by_sorted, IH].
Qed.



(** [Forall] over a closed list: normalise the list, then one goal per element *)
Ltac forall_by_computation :=
  match goal with
  | |- Forall ?P ?l =>
      let l' := eval vm_compute in l in
      change (Forall P l');
      repeat first
        [ apply List.Forall_nil
        | apply List.Forall_cons; [vm_compute; first [reflexivity | discriminate]|] ]
  end.

(** *** The second loop *)

Lemma combine_groups_written (E : Env) (groups : list (string * segment_group))
    (path : string) (d : bytes) :
  In (path, d) (written (combine_groups E groups)) <->
  exists key g, In (key, g) groups /\ path = output_path_of key /\
                combined_data_of g = Some d.
Proof.
  induction groups as [|[k g] groups IH]; simpl.
  - split; [tauto|]. intros [? [? [[] _]]].
  - destruct (combined_data_of g) as [data|] eqn:Hg; simpl.
    + split.
      * intros [[= <- <-]|H].
        -- exists k, g. auto.
        -- apply IH in H as [key [g' [H1 H2]]]. exists key, g'. auto.
      * intros [key [g' [[[= <- <-]|H1] [-> H2]]]].
        -- left. congruence.
        -- right. apply IH. eauto.
    + rewrite IH. split.
      * intros [key [g' [H1 H2]]]. exists key, g'. auto.
      * intros [key [g' [[[= <- <-]|H1] [-> H2]]]]; [congruence|eauto].
Qed.

Lemma str_length_app (a b : string) :
  String.length (a ++ b)%string = String.length a + String.length b.
Proof. induction a as [|c a IH]; simpl; [reflexivity|]. rewrite IH. reflexivity. Qed.

Lemma str_app_inv_tail (a b s : string) :
  (a ++ s)%string = (b ++ s)%string -> a = b.
Proof.
  revert b. induction a as [|c a IH]; intros [|c' b] H; simpl in H.
  - reflexivity.
  - apply (f_equal String.length) in H. rewrite !str_length_app in H. simpl in H. lia.
  - apply (f_equal String.length) in H. rewrite !str_length_app in H. simpl in H. lia.
  - injection H as -> H. f_equal. apply IH, H.
Qed.

Lemma str_app_inv_head (a s t : string) :
  (a ++ s)%string = (a ++ t)%string -> s = t.
Proof.
  induction a as [|c a IH]; simpl; intros H; [exact H|].
  injection H as H. apply IH, H.
Qed.

Lemma output_path_of_inj (k k' : string) :
  output_path_of k = output_path_of k' -> k = k'.
Proof.
  unfold output_path_of, path_join. intros H.
  do 3 apply str_app_inv_head in H.
  apply (str_app_inv_tail _ _ _ H).
Qed.

(** the file of a group, once the group is known *)
Lemma combine_webm_segments_group (E : Env) (l : list media_info) (key : string)
    (data : bytes) :
  Forall (fun m => is_ok (group_key m) = true) l ->
  List.filter (in_group key) l <> [] ->
  combined_data_of (filed (List.filter (in_group key) l) empty_group) = Some data ->
  exists c, combine_webm_segments E l = Ok c /\
    In (output_path_of key, data) (written c) /\
    (forall d, In (output_path_of key, d) (written c) -> d = data).
Proof.
  intros Hok Hne Hdata.
  destruct (group_segments_of_ok l Hok []) as [groups Hg].
  unfold combine_webm_segments. rewrite Hg. simpl.
  eexists. split; [reflexivity|].
  pose proof (group_segments_of_get key l _ _ Hg) as Hget.
  destruct (List.filter (in_group key) l) as [|m ms] eqn:Hf; [congruence|].
  simpl in Hget.
  split.
  - apply combine_groups_written. eexists _, _.
    split; [apply alist_get_In, Hget|]. split; [reflexivity|exact Hdata].
  - intros d Hd. apply combine_groups_written in Hd as [k [g [Hin [Hk Hc]]]].
    apply output_path_of_inj in Hk. subst k.
    apply alist_get_NoDup in Hin;
      [|apply (group_segments_of_keys l _ _ Hg); constructor].
    rewrite Hget in Hin. injection Hin as <-.
    change (combined_data_of (filed ms (add_to_group m empty_group)) = Some data)
      in Hdata.
    congruence.
Qed.



(** *** Candidates of role unknown *)

Lemma in_group_flagged (key : string) (m : media_info) :
  in_group key m = true -> is_video_segment m = true.
Proof.
  unfold in_group, group_key. destruct (is_video_segment m); [reflexivity|discriminate].
Qed.

Lemma append_segments_all (d : bytes) (segs : list media_info) :
  Forall (fun s => segment_data s <> None) segs ->
  append_segments d segs = Some (d ++ flat_map segment_bytes segs).
Proof.
  intros H. revert d. induction H as [|s segs Hs Hsegs IH]; intros d; simpl.
  - rewrite app_nil_r. reflexivity.
  - unfold segment_bytes at 1. destruct (segment_data s) as [ds|]; [|congruence].
    rewrite IH, <- app_assoc. reflexivity.
Qed.

Lemma segment_role_unknown (u : string) :
  str_in "inits" u = false ->
  str_in "/0.webm" u = false ->
  str_in "/1.webm" u = false ->
  str_in "/2.webm" u = false ->
  segment_role_of_url u = SegUnknown.
Proof.
  intros H H0 H1 H2. unfold segment_role_of_url. rewrite H, H0, H1, H2. reflexivity.
Qed.

Lemma find_snoc {A} (p : A -> bool) (l : list A) (x : A) :
  List.find p (l ++ [x])
  = match List.find p l with
    | Some y => Some y
    | None => if p x then Some x else None
    end.
Proof.
  induction l as [|y l IH]; simpl; [reflexivity|].
  destruct (p y); [reflexivity|exact IH].
Qed.

Lemma filed_group_init (ms : list media_info) (g : segment_group) :
  group_init (filed ms g)
  = match last_init ms with
    | Some i => Some i
    | None => group_init g
    end.
Proof.
  unfold last_init. revert g. induction ms as [|m ms IH]; intros g; [reflexivity|].
  change (filed (m :: ms) g) with (filed ms (add_to_group m g)).
  rewrite IH. simpl rev. rewrite find_snoc.
  destruct (List.find is_init (rev ms)) as [i|]; [reflexivity|].
  unfold add_to_group. destruct (is_init m); reflexivity.
Qed.

Lemma last_init_In (ms : list media_info) (i : media_info) :
  last_init ms = Some i -> In i ms /\ is_init i = true.
Proof.
  unfold last_init. intros H. apply find_some in H as [H1 H2].
  split; [apply in_rev, H1|exact H2].
Qed.

(** the file of a group: the bytes of its last init candidate, then those
    of its other candidates in the order of the sort *)
Lemma combine_webm_segments_group_bytes (E : Env) (extracted_media : list media_info)
    (key : string) (init_segment : media_info) (di : bytes) :
  Forall (fun m => is_ok (group_key m) = true) extracted_media ->
  Forall (fun m => is_video_segment m = true -> segment_data m <> None) extracted_media ->
  last_init (List.filter (in_group key) extracted_media) = Some init_segment ->
  segment_data init_segment = Some di ->
  List.filter (fun m => negb (is_init m)) (List.filter (in_group key) extracted_media)
    <> [] ->
  exists c, combine_webm_segments E extracted_media = Ok c /\
    In (output_path_of key,
        di ++ flat_map segment_bytes (media_segments key extracted_media))
       (written c) /\
    (forall d, In (output_path_of key, d) (written c) ->
       d = di ++ flat_map segment_bytes (media_segments key extracted_media)).
Proof.
  intros Hok Hdata Hlast Hdi Hne. unfold media_segments.
  set (ms := List.filter (in_group key) extracted_media) in *.
  apply combine_webm_segments_group; [exact Hok| |].
  - fold ms. intros Hnil. rewrite Hnil in Hne. apply Hne. reflexivity.
  - fold ms. unfold combined_data_of.
    rewrite filed_group_init, Hlast, filed_segments. cbn [group_segments empty_group app].
    set (sorted := sorted_by segment_number (List.filter (fun m => negb (is_init m)) ms)).
    assert (Hperm : Permutation sorted (List.filter (fun m => negb (is_init m)) ms))
      by apply sorted_by_Permutation.
    destruct sorted as [|s0 sorted'] eqn:Hs.
    { apply Permutation_nil in Hperm. contradiction. }
    rewrite Hdi. apply append_segments_all.
    apply List.Forall_forall. intros x Hx.
    apply (Permutation_in _ Hperm), filter_In in Hx as [Hx _].
    apply filter_In in Hx as [Hx1 Hx2].
    rewrite List.Forall_forall in Hdata.
    apply (Hdata x Hx1), (in_group_flagged key), Hx2.
Qed.

(** in an ascending list the elements before a place are not above the
    element at it, and the elements after it are not below *)
Lemma sorted_around {A} (key : A -> N) (before after : list A) (x : A) :
  StronglySorted (key_le key) (before ++ x :: after) ->
  Forall (fun y => (key y <= key x)%N) before /\
  Forall (fun y => (key x <= key y)%N) after.
Proof.
  induction before as [|b before IH]; simpl; intros H.
  - apply StronglySorted_inv in H as [_ H]. split; [constructor|exact H].
  - apply StronglySorted_inv in H as [Hs Hb].
    destruct (IH Hs) as [H1 H2]. split; [|exact H2].
    constructor; [|exact H1].
    rewrite List.Forall_forall in Hb. apply Hb, in_elt.
Qed.

(** C2, as the claim words it, fails: in a run over a capture that names an
    init segment and the segment [3.webm], the second candidate gets the
    role unknown, and its bytes are the tail of the assembled file. *)
Lemma unknown_segment_is_assembled :
  str_in "inits" (canvas_base ++ "3.webm") = false /\
  extract_segment_number (canvas_base ++ "3.webm") = 3%N /\
  exists r,
    process_har_data canvas_cdn
      (capture [entry_of_url (canvas_base ++ "inits/webm.webm");
                entry_of_url (canvas_base ++ "3.webm")]) ∅ = Ok r /\
    map segment_type (run_media r) = [Some SegInit; Some SegUnknown] /\
    In (output_path_of "ab12cd_profile_11",
        payload (canvas_base ++ "inits/webm.webm") ++ payload (canvas_base ++ "3.webm"))
       (run_files r).
Proof.
  split; [reflexivity|]. split; [reflexivity|].
  eexists. split; [vm_compute; reflexivity|].
  split; [reflexivity|].
  vm_compute. right. right. left. reflexivity.
Qed.

(** C2 (amended): a fetched segment whose url holds neither [inits] nor one
    of [/0.webm], [/1.webm], [/2.webm] gets the role unknown, and the
    assembler treats it as it treats a media segment.  It is sorted with
    the other non-init candidates of its group by segment number, and when
    the group has an init candidate and [int] accepts the digits of each
    of those candidates, the file of the group holds the bytes of the init
    candidate, then those of the candidates sorted before the unknown one
    (none with a greater number), then its own bytes, then those of the
    candidates sorted after it (none with a smaller number); the file is
    written once. *)
Theorem unknown_segments_are_assembled (E : Env) (extracted_media : list media_info)
    (key u : string) (m init_segment : media_info) (d di : bytes) :
  Forall (fun m => is_ok (group_key m) = true) extracted_media ->
  Forall (fun m => is_video_segment m = true -> segment_data m <> None) extracted_media ->
  Forall (fun s => number_readable s = true) (media_segments key extracted_media) ->
  In m extracted_media ->
  url m = JStr u ->
  str_in "inits" u = false ->
  str_in "/0.webm" u = false ->
  str_in "/1.webm" u = false ->
  str_in "/2.webm" u = false ->
  segment_type m = Some (segment_role_of_url u) ->
  in_group key m = true ->
  segment_data m = Some d ->
  last_init (List.filter (in_group key) extracted_media) = Some init_segment ->
  segment_data init_segment = Some di ->
  segment_type m = Some SegUnknown /\
  exists c before after,
    combine_webm_segments E extracted_media = Ok c /\
    media_segments key extracted_media = before ++ m :: after /\
    Forall (fun s => (segment_number s <= segment_number m)%N) before /\
    Forall (fun s => (segment_number m <= segment_number s)%N) after /\
    In (output_path_of key,
        di ++ flat_map segment_bytes before ++ d ++ flat_map segment_bytes after)
       (written c) /\
    (forall d', In (output_path_of key, d') (written c) ->
       d' = di ++ flat_map segment_bytes before ++ d ++ flat_map segment_bytes after).
Proof.
  intros Hok Hdata _ Hm Hu H H0 H1 H2 Hrole Hkey Hd Hlast Hdi.
  rewrite (segment_role_unknown u H H0 H1 H2) in Hrole.
  split; [exact Hrole|].
  assert (Hni : is_init m = false) by (unfold is_init; rewrite Hrole; reflexivity).
  assert (Hin : In m (List.filter (fun m => negb (is_init m))
                        (List.filter (in_group key) extracted_media))).
  { apply filter_In. split; [apply filter_In; split; assumption|].
    rewrite Hni. reflexivity. }
  destruct (combine_webm_segments_group_bytes E extracted_media key init_segment di
              Hok Hdata Hlast Hdi) as [c [Hc [Hw Hu']]].
  { intros Hnil. rewrite Hnil in Hin. destruct Hin. }
  assert (Hs : In m (media_segments key extracted_media)).
  { apply (Permutation_in _ (Permutation_sym (sorted_by_Permutation _ _))), Hin. }
  destruct (in_split _ _ Hs) as [before [after Hsplit]].
  pose proof (sorted_by_sorted segment_number
                (List.filter (fun m => negb (is_init m))
                   (List.filter (in_group key) extracted_media))) as Hsorted.
  fold (media_segments key extracted_media) in Hsorted. rewrite Hsplit in Hsorted.
  destruct (sorted_around _ _ _ _ Hsorted) as [Hb Ha].
  assert (Hbytes : flat_map segment_bytes (media_segments key extracted_media)
                   = flat_map segment_bytes before ++ d ++ flat_map segment_bytes after).
  { rewrite Hsplit, flat_map_app. simpl. unfold segment_bytes at 2. rewrite Hd.
    reflexivity. }
  rewrite Hbytes in Hw, Hu'.
  exists c, before, after. repeat (split; [assumption|]). exact Hu'.
Qed.

Lemma unknown_segments_are_assembled_witness :
  segment_type (fetched (canvas_base ++ "3.webm")) = Some SegUnknown /\
  exists c,
    combine_webm_segments canvas_cdn (resolved canvas_cdn long_capture) = Ok c /\
    In (output_path_of "ab12cd_profile_11",
        payload (canvas_base ++ "inits/webm.webm")
        ++ payload (canvas_base ++ "0.webm") ++ payload (canvas_base ++ "3.webm"))
       (written c).
Proof.
  destruct (unknown_segments_are_assembled canvas_cdn (resolved canvas_cdn long_capture)
           "ab12cd_profile_11" (canvas_base ++ "3.webm")
           (fetched (canvas_base ++ "3.webm"))
           (fetched (canvas_base ++ "inits/webm.webm"))
           (payload (canvas_base ++ "3.webm"))
           (payload (canvas_base ++ "inits/webm.webm")))
    as [Hrole [c [before [after [Hc [Hsplit [_ [_ [Hin _]]]]]]]]].
  - forall_by_computation.
  - forall_by_computation.
  - forall_by_computation.
  - left. reflexivity.
  - reflexivity.
  - reflexivity.
  - reflexivity.
  - reflexivity.
  - reflexivity.
  - reflexivity.
  - reflexivity.
  - reflexivity.
  - reflexivity.
  - reflexivity.
  - split; [exact Hrole|]. exists c. split; [exact Hc|].
    assert (Hb : before = [fetched (canvas_base ++ "0.webm")] /\ after = []).
    { vm_compute in Hsplit.
      destruct before as [|b0 [|b1 before]]; simpl in Hsplit.
      - discriminate.
      - inversion Hsplit; subst. split; vm_compute; reflexivity.
      - destruct before; discriminate. }
    destruct Hb as [-> ->]. vm_compute. vm_compute in Hin. exact Hin.
Defined.

(** ** Embedded payloads *)

Lemma Ok_inj {A} (a b : A) : Ok a = Ok b -> a = b.
Proof. congruence. Qed.

Ltac inv_bind H :=
  repeat first
    [ progress (unfold mbind, result_bind, por, pand in H; cbn beta iota in H)
    | match type of H with
      | match ?e with Ok _ => _ | Raise _ => _ end = Ok _ =>
          let r := fresh "r" in
          let Hr := fresh "Hr" in
          destruct e as [r|] eqn:Hr; [|discriminate H]
      | (if ?b then _ else _) = Ok _ =>
          let Hb := fresh "Hb" in destruct b eqn:Hb
      | Ok _ = Ok _ => apply Ok_inj in H
      end ].

Lemma new_media_info_unfetched (entry request response u : json) (m : media_info) :
  new_media_info entry request response u = Ok m -> unfetched m.
Proof.
  unfold new_media_info. intros H. inv_bind H. subst m. repeat split.
Qed.

Lemma try_decode_unfetched (E : Env) (text : json) (m : media_info) :
  unfetched m -> unfetched (try_decode E text m).
Proof. unfold try_decode. destruct (b64decode_value E text); auto. Qed.

Lemma set_content_unfetched (m : media_info) (c : json) :
  unfetched m -> unfetched (set_content m c).
Proof. auto. Qed.

Lemma image_entry_unfetched (E : Env) (entry request response u : json) (m : media_info) :
  image_entry E entry request response u = Ok m -> unfetched m.
Proof.
  unfold image_entry. intros H. inv_bind H; subst;
    repeat first [apply try_decode_unfetched | apply set_content_unfetched];
    eapply new_media_info_unfetched; eassumption.
Qed.

Lemma video_entry_unfetched (E : Env) (entry request response u : json) (m : media_info) :
  video_entry E entry request response u = Ok m -> unfetched m.
Proof.
  unfold video_entry. intros H. inv_bind H; subst;
    repeat first [apply try_decode_unfetched | apply set_content_unfetched];
    eapply new_media_info_unfetched; eassumption.
Qed.

Lemma classify_entry_unfetched (E : Env) (entry : json) (found found' : gset string)
    (m : media_info) :
  classify_entry E entry found = Ok (Some m, found') -> unfetched m.
Proof.
  unfold classify_entry. intros H. inv_bind H; simplify_eq.
  - eapply image_entry_unfetched; eassumption.
  - eapply video_entry_unfetched; eassumption.
Qed.

Lemma classify_entries_unfetched (E : Env) (entries : list json) :
  forall found, Forall unfetched (fst (classify_entries E entries found)).
Proof.
  induction entries as [|entry entries IH]; intros found; simpl; [constructor|].
  destruct (classify_entry E entry found) as [[[m|] found']|e] eqn:Hc.
  - specialize (IH found'). destruct (classify_entries E entries found'). simpl in *.
    constructor; [|exact IH]. eapply classify_entry_unfetched; eassumption.
  - apply IH.
  - apply IH.
Qed.

Lemma extract_spotify_images_unfetched (E : Env) (har_data : json)
    (found found' : gset string) (extracted_media : list media_info) :
  extract_spotify_images E har_data found = Ok (extracted_media, found') ->
  Forall unfetched extracted_media.
Proof.
  unfold extract_spotify_images. intros H. inv_bind H.
  - simplify_eq. constructor.
  - match type of H with
    | classify_entries E ?items found = _ =>
        pose proof (classify_entries_unfetched E items found) as Hc
    end.
    rewrite H in Hc. exact Hc.
Qed.

Lemma fetch_media_decoded (E : Env) (m : media_info) (u : string)
    (m' : media_info) (w : option (string * bytes)) :
  fetch_media E m u = Ok (m', w) -> decoded_data m' = decoded_data m.
Proof.
  unfold fetch_media. intros H. inv_bind H; simplify_eq; try reflexivity.
  match goal with |- context [if ?b then set_segment _ _ _ else _] => destruct b end;
    reflexivity.
Qed.

(** what a download leaves on a candidate with an embedded payload *)
Lemma download_media_embedded (E : Env) (m : media_info) :
  unfetched m ->
  is_embedded (fst (download_media E m)) = true ->
  unfetched (fst (download_media E m)).
Proof.
  unfold download_media, is_embedded. intros Hm.
  destruct (decoded_data m) as [data|] eqn:Hd; simpl; [intros _; exact Hm|].
  destruct (url m) as [| | | |u| |]; simpl; try (rewrite Hd; discriminate).
  destruct (fetch_media E m u) as [[m' w]|e] eqn:Hf; simpl;
    [|rewrite Hd; discriminate].
  rewrite (fetch_media_decoded _ _ _ _ _ Hf), Hd. discriminate.
Qed.

Lemma download_all_embedded (E : Env) (extracted_media : list media_info) :
  Forall unfetched extracted_media ->
  Forall (fun m => is_embedded m = true -> unfetched m)
         (fst (download_all E extracted_media)).
Proof.
  induction 1 as [|m l Hm Hl IH]; simpl; [constructor|].
  pose proof (download_media_embedded E m Hm) as Hd.
  destruct (download_media E m) as [m' w].
  destruct (download_all E l) as [ms ws]. simpl in *.
  constructor; assumption.
Qed.

(** the first loop passes over every candidate that is not flagged *)
Lemma group_segments_of_filter (p : media_info -> bool) (l : list media_info) :
  Forall (fun m => p m = false -> is_video_segment m = false) l ->
  forall groups,
  group_segments_of l groups = group_segments_of (List.filter p l) groups.
Proof.
  induction 1 as [|m l Hm Hl IH]; intros groups; simpl; [reflexivity|].
  destruct (p m) eqn:Hp; simpl.
  - destruct (group_key m) as [[k|]|e]; simpl; [apply IH|apply IH|reflexivity].
  - unfold group_key. rewrite (Hm eq_refl). simpl. apply IH.
Qed.

(** C10: after the downloads of a run, a candidate that carries an
    embedded decoded payload has neither the segment flag nor segment
    bytes, and assembly yields what it yields on the list without those
    candidates: only candidates fetched over the network are grouped and
    concatenated. *)
Theorem embedded_never_assembled (E : Env) (har_data : json)
    (found_urls found_urls' : gset string) (extracted_media : list media_info) :
  extract_spotify_images E har_data found_urls = Ok (extracted_media, found_urls') ->
  Forall (fun m => is_embedded m = true ->
                   is_video_segment m = false /\ segment_data m = None)
         (fst (download_all E extracted_media)) /\
  combine_webm_segments E (fst (download_all E extracted_media))
  = combine_webm_segments E
      (List.filter (fun m => negb (is_embedded m)) (fst (download_all E extracted_media))).
Proof.
  intros Hx.
  pose proof (download_all_embedded E extracted_media
                (extract_spotify_images_unfetched _ _ _ _ _ Hx)) as H.
  split.
  - eapply Forall_impl; [exact H|]. intros m Hm He.
    destruct (Hm He) as [H1 [H2 _]]. split; assumption.
  - unfold combine_webm_segments.
    rewrite (group_segments_of_filter (fun m => negb (is_embedded m))); [reflexivity|].
    eapply Forall_impl; [exact H|]. intros m Hm He.
    apply negb_false_iff in He. apply (Hm He).
Qed.

Lemma embedded_never_assembled_witness :
  map is_embedded (resolved decoding_cdn embedded_capture) = [true; false; true] /\
  Forall (fun m => is_embedded m = true ->
                   is_video_segment m = false /\ segment_data m = None)
         (resolved decoding_cdn embedded_capture) /\
  combine_webm_segments decoding_cdn (resolved decoding_cdn embedded_capture)
  = combine_webm_segments decoding_cdn
      (List.filter (fun m => negb (is_embedded m))
         (resolved decoding_cdn embedded_capture)).
Proof.
  split; [reflexivity|].
  apply (embedded_never_assembled decoding_cdn embedded_capture ∅ ∅
           (media_of (extract_spotify_images decoding_cdn embedded_capture ∅))).
  vm_compute. reflexivity.
Defined.

(** ** Malformed documents *)

Lemma py_in_obj_absent (k : string) (fields : list (string * json)) :
  alist_get k fields = None -> py_in k (JObj fields) = Ok false.
Proof.
  intros H. simpl. f_equal.
  induction fields as [|[k' v] fields IH]; simpl in *; [reflexivity|].
  destruct (String.eqb k k'); [discriminate|]. apply IH, H.
Qed.

Lemma py_in_obj_present (k : string) (fields : list (string * json)) (v : json) :
  alist_get k fields = Some v -> py_in k (JObj fields) = Ok true.
Proof.
  intros H. simpl. f_equal.
  induction fields as [|[k' v'] fields IH]; simpl in *; [discriminate|].
  destruct (String.eqb k k'); [reflexivity|]. apply IH, H.
Qed.

(** a document without the [log.entries] path yields no candidate *)
Lemma extract_spotify_images_without_entries (E : Env) (fields : list (string * json))
    (found_urls : gset string) :
  (alist_get "log" fields = None \/
   exists log_fields, alist_get "log" fields = Some (JObj log_fields) /\
                      alist_get "entries" log_fields = None) ->
  extract_spotify_images E (JObj fields) found_urls = Ok ([], found_urls).
Proof.
  intros [Hlog|[log_fields [Hlog Hentries]]]; unfold extract_spotify_images, por.
  - rewrite (py_in_obj_absent _ _ Hlog). reflexivity.
  - rewrite (py_in_obj_present _ _ _ Hlog).
    cbn [mbind result_bind negb]. unfold py_index. rewrite Hlog.
    cbn [mbind result_bind]. rewrite (py_in_obj_absent _ _ Hentries). reflexivity.
Qed.

Lemma save_analysis_report_without_entries (E : Env) (fields : list (string * json))
    (found_urls : gset string) :
  (alist_get "log" fields = None \/
   exists log_fields, alist_get "log" fields = Some (JObj log_fields) /\
                      alist_get "entries" log_fields = None) ->
  exists report numbers,
    save_analysis_report E (JObj fields) [] found_urls = Ok (report, numbers).
Proof.
  intros [Hlog|[log_fields [Hlog Hentries]]]; unfold save_analysis_report.
  - cbn [py_get]. rewrite Hlog. eexists _, _. reflexivity.
  - cbn [py_get]. rewrite Hlog. run_binds.
    cbn [default from_option id py_get]. rewrite Hentries.
    eexists _, _. reflexivity.
Qed.

(** C5, checked on the code at a document whose [log] is [null]: the guard
    of [extract_spotify_images] evaluates ['entries' not in None], which
    raises, and nothing in [process_har_data] catches it. *)
Theorem process_har_data_null_log (E : Env) (found_urls : gset string) :
  process_har_data E (JObj [("log", JNull)]) found_urls = Raise TypeError.
Proof. reflexivity. Qed.

(** the same happens later in the run when [log] is a list: the guard lets
    the document through as invalid, and [save_analysis_report] calls [get]
    on the list *)
Lemma process_har_data_list_log (E : Env) (found_urls : gset string) :
  process_har_data E (JObj [("log", JArr [])]) found_urls = Raise AttributeError.
Proof. reflexivity. Qed.

(** C6, as the claim words it, fails: on the empty document, which has
    no [log.entries] path, the run ends with [success] set. *)
Lemma process_har_data_empty_document_succeeds :
  exists r, process_har_data offline (JObj []) ∅ = Ok r /\
            success (run_results r) = true /\
            total_media_found (run_results r) = 0.
Proof. eexists. split; [vm_compute; reflexivity|]. split; reflexivity. Qed.

(** C6 (amended): a document that lacks the key [log], or whose [log] is an
    object without the key [entries], is not fatal to the run:
    [process_har_data] returns a result with [success] set, no media
    candidate and no downloaded candidate file. *)
Theorem process_har_data_without_entries (E : Env) (fields : list (string * json))
    (found_urls : gset string) :
  (alist_get "log" fields = None \/
   exists log_fields, alist_get "log" fields = Some (JObj log_fields) /\
                      alist_get "entries" log_fields = None) ->
  exists r, process_har_data E (JObj fields) found_urls = Ok r /\
            success (run_results r) = true /\
            total_media_found (run_results r) = 0 /\
            run_media r = [] /\
            run_found_urls r = found_urls.
Proof.
  intros H. unfold process_har_data.
  rewrite (extract_spotify_images_without_entries E fields found_urls H).
  destruct (save_analysis_report_without_entries E fields found_urls H)
    as [report [numbers Hr]].
  run_binds. cbn [download_all]. unfold combine_webm_segments.
  cbn [group_segments_of]. run_binds. rewrite Hr.
  eexists. split; [reflexivity|]. repeat split.
Qed.

Lemma process_har_data_without_entries_witness :
  exists r, process_har_data offline (JObj [("log", JObj [("version", JStr "1.2")])]) ∅ = Ok r /\
            success (run_results r) = true /\
            total_media_found (run_results r) = 0 /\
            run_media r = [] /\
            run_found_urls r = ∅.
Proof.
  apply (process_har_data_without_entries offline [("log", JObj [("version", JStr "1.2")])] ∅).
  right. exists [("version", JStr "1.2")]. split; reflexivity.
Defined.

(** ** Classification of image requests *)

Lemma startswith_refl (s : string) : startswith s s = true.
Proof.
  induction s as [|c s IH]; simpl; [reflexivity|].
  rewrite Ascii.eqb_refl. exact IH.
Qed.

Lemma str_in_refl (s : string) : str_in s s = true.
Proof. destruct s; simpl; [reflexivity|]. rewrite Ascii.eqb_refl, startswith_refl. reflexivity. Qed.

Lemma is_spotify_image_url_host (u : string) :
  In u spotify_image_domains -> is_spotify_image_url (JStr u) = Ok true.
Proof.
  intros H. unfold is_spotify_image_url. rewrite any_in_str. f_equal.
  apply existsb_exists. exists u. split; [exact H|apply str_in_refl].
Qed.

Lemma find_content_type_ok (hs : list json) :
  forallb well_formed_header hs = true -> exists ct, find_content_type hs = Ok ct.
Proof.
  induction hs as [|h hs IH]; simpl; [eexists; reflexivity|].
  intros [Hh Hhs]%andb_prop. destruct h as [| | | | | |fields]; try discriminate.
  unfold well_formed_header in Hh. run_binds. cbn [py_get default from_option id].
  destruct (alist_get "name" fields) as [[| | | |n| |]|]; try discriminate;
    cbn [default from_option id].
  - destruct (String.eqb (lower n) "content-type"); [eexists; reflexivity|apply IH, Hhs].
  - apply IH, Hhs.
Qed.

Lemma get_content_type_ok (fields : list (string * json)) :
  match alist_get "headers" fields with
  | None => true
  | Some (JArr hs) => forallb well_formed_header hs
  | Some _ => false
  end = true ->
  exists ct, get_content_type (JObj fields) = Ok ct.
Proof.
  intros H. unfold get_content_type. cbn [py_get]. run_binds.
  destruct (alist_get "headers" fields) as [[| | | | |hs|]|]; try discriminate;
    cbn [default from_option id py_iter].
  - apply find_content_type_ok, H.
  - eexists. reflexivity.
Qed.

Lemma new_media_info_ok (entry_fields request_fields response_fields : list (string * json))
    (u : json) :
  match alist_get "headers" response_fields with
  | None => true
  | Some (JArr hs) => forallb well_formed_header hs
  | Some _ => false
  end = true ->
  exists m, new_media_info (JObj entry_fields) (JObj request_fields)
              (JObj response_fields) u = Ok m /\ url m = u.
Proof.
  intros H. destruct (get_content_type_ok response_fields H) as [ct Hct].
  unfold new_media_info. cbn [py_get]. run_binds. rewrite Hct.
  eexists. split; reflexivity.
Qed.

Lemma try_decode_url (E : Env) (text : json) (m : media_info) :
  url (try_decode E text m) = url m.
Proof. unfold try_decode. destruct (b64decode_value E text); reflexivity. Qed.

Lemma image_entry_ok (E : Env) (entry_fields request_fields response_fields : list (string * json))
    (u : json) :
  well_formed_response (JObj entry_fields) = true ->
  py_get (JObj entry_fields) "response" (JObj []) = Ok (JObj response_fields) ->
  exists m, image_entry E (JObj entry_fields) (JObj request_fields)
              (JObj response_fields) u = Ok m /\ url m = u.
Proof.
  unfold well_formed_response. intros Hwf Hresp. rewrite Hresp in Hwf.
  apply andb_prop in Hwf as [Hh Hc].
  destruct (new_media_info_ok entry_fields request_fields response_fields u Hh)
    as [m [Hm Hu]].
  unfold image_entry. rewrite Hm. run_binds. cbn [py_get]. run_binds.
  destruct (alist_get "content" response_fields) as [c|];
    cbn [default from_option id]; [|eexists; split; [reflexivity|exact Hu]].
  destruct (truthy c) eqn:Ht; [|eexists; split; [reflexivity|exact Hu]].
  destruct c as [| | | | | |content_fields]; try (cbn in Ht, Hc; first [discriminate Ht | discriminate Hc]).
  unfold py_get_none. cbn [py_get]. run_binds.
  destruct (is_str "base64" _); [|eexists; split; [reflexivity|exact Hu]].
  match goal with
  | |- context [if truthy ?t then _ else _] => destruct (truthy t)
  end; eexists; (split; [reflexivity|]); rewrite ?try_decode_url; exact Hu.
Qed.

Lemma classify_entry_image (E : Env) (entry : json) (u : string) (found_urls : gset string) :
  request_url entry = Ok (JStr u) ->
  well_formed_response entry = true ->
  In u spotify_image_domains ->
  exists m, classify_entry E entry found_urls = Ok (Some m, found_urls) /\
            url m = JStr u.
Proof.
  intros Hu Hwf Hin. unfold request_url in Hu.
  destruct entry as [| | | | | |entry_fields]; try discriminate.
  destruct (py_get (JObj entry_fields) "request" (JObj [])) as [request|] eqn:Hreq;
    [|discriminate].
  revert Hu. run_binds. intros Hu.
  destruct request as [| | | | | |request_fields]; try discriminate.
  assert (Hresp : exists response_fields,
             py_get (JObj entry_fields) "response" (JObj []) = Ok (JObj response_fields)).
  { unfold well_formed_response in Hwf.
    destruct (py_get (JObj entry_fields) "response" (JObj [])) as [[| | | | | |rf]|];
      try discriminate. eexists. reflexivity. }
  destruct Hresp as [response_fields Hresp].
  destruct (image_entry_ok E entry_fields request_fields response_fields (JStr u)
              Hwf Hresp) as [m [Hm Hurl]].
  unfold classify_entry. rewrite Hreq, Hresp. run_binds. rewrite Hu.
  rewrite (is_spotify_image_url_host u Hin), Hm.
  exists m. split; [reflexivity|exact Hurl].
Qed.

Lemma classify_entries_images (E : Env) (entries : list json) (urls : list string)
    (found_urls : gset string) :
  Forall2 (fun entry u => request_url entry = Ok (JStr u)) entries urls ->
  Forall (fun entry => well_formed_response entry = true) entries ->
  Forall (fun u => In u spotify_image_domains) urls ->
  exists extracted_media,
    classify_entries E entries found_urls = (extracted_media, found_urls) /\
    map url extracted_media = map JStr urls.
Proof.
  induction 1 as [|entry u entries urls Hu Hrest IH]; intros Hwf Hin; simpl.
  - exists []. split; reflexivity.
  - apply Forall_cons_iff in Hwf as [Hwf Hwfs]. apply Forall_cons_iff in Hin as [Hin Hins].
    destruct (classify_entry_image E entry u found_urls Hu Hwf Hin) as [m [Hm Hurl]].
    destruct (IH Hwfs Hins) as [ms [Hms Hurls]].
    rewrite Hm, Hms. exists (m :: ms). split; [reflexivity|].
    simpl. rewrite Hurl, Hurls. reflexivity.
Qed.

(** C7, as the claim words it, fails: in a capture whose request urls are
    the image hosts and whose first entry has [null] for a response, that
    entry raises at [response.get] inside the [try] of the loop and is
    passed over, so its url is missing from the candidates. *)
Lemma extract_spotify_images_null_response :
  (exists entries,
     null_response_capture = capture entries /\
     Forall2 (fun entry u => request_url entry = Ok (JStr u))
             entries spotify_image_domains) /\
  exists extracted_media,
    extract_spotify_images offline null_response_capture ∅ = Ok (extracted_media, ∅) /\
    map url extracted_media = map JStr (tl spotify_image_domains) /\
    ~ In (JStr "i.scdn.co") (map url extracted_media).
Proof.
  split.
  - eexists. split; [reflexivity|]. repeat constructor.
  - eexists. split; [vm_compute; reflexivity|]. split; [reflexivity|].
    simpl. intros H. repeat (destruct H as [H|H]; [discriminate|]). exact H.
Qed.

(** C7 (amended): in a capture whose entries have well-formed responses
    and whose request urls, taken as a set, are the members of the
    image-host list, every entry becomes a candidate and nothing else
    does: the candidate urls are the request urls, entry by entry, and as
    a set they are the image-host list. *)
Theorem extract_spotify_images_image_hosts (E : Env)
    (fields log_fields : list (string * json)) (entries : list json)
    (urls : list string) (found_urls : gset string) :
  alist_get "log" fields = Some (JObj log_fields) ->
  alist_get "entries" log_fields = Some (JArr entries) ->
  Forall2 (fun entry u => request_url entry = Ok (JStr u)) entries urls ->
  Forall (fun entry => well_formed_response entry = true) entries ->
  (list_to_set urls : gset string) = list_to_set spotify_image_domains ->
  exists extracted_media,
    extract_spotify_images E (JObj fields) found_urls = Ok (extracted_media, found_urls) /\
    map url extracted_media = map JStr urls /\
    (forall u, In (JStr u) (map url extracted_media) <-> In u spotify_image_domains).
Proof.
  intros Hlog Hentries Hurls Hwf Hset.
  assert (Hmem : forall u, In u urls <-> In u spotify_image_domains).
  { intros u. rewrite <- !list_elem_of_In, <- !(elem_of_list_to_set (C := gset string)).
    rewrite Hset. reflexivity. }
  destruct (classify_entries_images E entries urls found_urls Hurls Hwf)
    as [extracted_media [Hc Hmap]].
  { apply List.Forall_forall. intros u Hu. apply Hmem, Hu. }
  exists extracted_media. split; [|split; [exact Hmap|]].
  - unfold extract_spotify_images, por.
    rewrite (py_in_obj_present _ _ _ Hlog). run_binds. cbn [negb].
    unfold py_index. rewrite Hlog. run_binds.
    rewrite (py_in_obj_present _ _ _ Hentries). run_binds. cbn [negb].
    rewrite Hentries. run_binds. cbn [py_len py_iter]. run_binds.
    rewrite Hc. reflexivity.
  - intros u. rewrite Hmap, <- Hmem, in_map_iff. split.
    + intros [x [[= ->] Hx]]. exact Hx.
    + intros Hu. exists u. split; [reflexivity|exact Hu].
Qed.

Lemma extract_spotify_images_image_hosts_witness :
  exists extracted_media,
    extract_spotify_images offline image_host_capture ∅ = Ok (extracted_media, ∅) /\
    map url extracted_media = map JStr spotify_image_domains /\
    (forall u, In (JStr u) (map url extracted_media) <-> In u spotify_image_domains).
Proof.
  apply (extract_spotify_images_image_hosts offline
           [("log", JObj [("entries", JArr (map entry_of_url spotify_image_domains))])]
           [("entries", JArr (map entry_of_url spotify_image_domains))]
           (map entry_of_url spotify_image_domains) spotify_image_domains ∅).
  - reflexivity.
  - reflexivity.
  - repeat constructor.
  - repeat constructor.
  - reflexivity.
Defined.

(** * Further properties *)

(** ** Substring tests *)

Lemma startswith_spec (p s : string) :
  startswith p s = true <-> exists t, s = (p ++ t)%string.
Proof.
  revert s. induction p as [|a p IH]; intros s; simpl.
  - split; [intros _; exists s; reflexivity|reflexivity].
  - destruct s as [|b s].
    + split; [discriminate|intros [t Ht]; discriminate].
    + rewrite andb_true_iff, IH. split.
      * intros [Hab [t ->]]. apply Ascii.eqb_eq in Hab as ->. exists t. reflexivity.
      * intros [t [= -> ->]]. split; [apply Ascii.eqb_refl|exists t; reflexivity].
Qed.

Lemma str_in_spec (needle hay : string) :
  str_in needle hay = true <-> exists a b, hay = (a ++ needle ++ b)%string.
Proof.
  split.
  - induction hay as [|c hay IH]; simpl; rewrite orb_true_iff.
    + intros [H|H]; [|discriminate]. apply startswith_spec in H as [t Ht].
      exists "", t. exact Ht.
    + intros [H|H].
      * apply startswith_spec in H as [t Ht]. exists "", t. exact Ht.
      * destruct (IH H) as [a [b ->]]. exists (String c a), b. reflexivity.
  - intros [a [b ->]]. induction a as [|c a IH].
    + assert (H : startswith needle (needle ++ b) = true)
        by (apply startswith_spec; eauto).
      simpl. destruct (needle ++ b)%string; simpl in *; rewrite H; reflexivity.
    + simpl. rewrite IH. apply orb_true_r.
Qed.

Lemma any_in_str_spec (domains : list string) (u : string) :
  any_in domains (JStr u) = Ok true <->
  exists d a b, In d domains /\ u = (a ++ d ++ b)%string.
Proof.
  rewrite any_in_str. split.
  - intros [= H]. apply existsb_exists in H as [d [Hd Hin]].
    apply str_in_spec in Hin as [a [b ->]]. eauto.
  - intros [d [a [b [Hd ->]]]]. f_equal. apply existsb_exists.
    exists d. split; [exact Hd|]. apply str_in_spec. eauto.
Qed.

(** X1: on a [str] the two host tests never raise, and they are substring
    tests: a url passes exactly when one of the listed hosts occurs
    anywhere in it, whatever stands before and after. *)
Theorem host_tests_are_substring_tests (u : string) :
  (exists b, is_spotify_image_url (JStr u) = Ok b) /\
  (exists b, is_spotify_video_url (JStr u) = Ok b) /\
  (is_spotify_image_url (JStr u) = Ok true <->
   exists d a b, In d spotify_image_domains /\ u = (a ++ d ++ b)%string) /\
  (is_spotify_video_url (JStr u) = Ok true <->
   exists d a b, In d spotify_video_domains /\ u = (a ++ d ++ b)%string).
Proof.
  unfold is_spotify_image_url, is_spotify_video_url.
  repeat split; try (rewrite any_in_str; eexists; reflexivity);
    apply any_in_str_spec.
Qed.

(** ** Entries that are passed over *)

Lemma any_in_scalar (domains : list string) (v : json) :
  is_scalar v = true -> domains <> [] -> any_in domains v = Raise TypeError.
Proof.
  intros Hv Hd. destruct domains as [|d ds]; [congruence|].
  destruct v; try discriminate; reflexivity.
Qed.

(** X2: an entry whose request url is [null], a boolean or a number makes
    the first host test raise [TypeError]; the loop catches it, appends no
    candidate for the entry, leaves the discovered urls alone and goes on
    with the next entry. *)
Theorem entry_with_scalar_url_is_skipped (E : Env) (entry v : json)
    (rest : list json) (found_urls : gset string) :
  request_url entry = Ok v ->
  is_scalar v = true ->
  classify_entry E entry found_urls = Raise TypeError /\
  classify_entries E (entry :: rest) found_urls = classify_entries E rest found_urls.
Proof.
  intros Hu Hv.
  assert (H : classify_entry E entry found_urls = Raise TypeError).
  { unfold request_url in Hu. unfold classify_entry.
    destruct (py_get entry "request" (JObj [])) as [request|] eqn:Hreq; [|discriminate].
    revert Hu. run_binds. intros Hu.
    assert (Hresp : exists response, py_get entry "response" (JObj []) = Ok response).
    { destruct entry; try discriminate. eexists. reflexivity. }
    destruct Hresp as [response ->]. rewrite Hu.
    unfold is_spotify_image_url. rewrite (any_in_scalar _ _ Hv); [reflexivity|discriminate]. }
  split; [exact H|]. simpl. rewrite H. reflexivity.
Qed.

Lemma entry_with_scalar_url_is_skipped_witness :
  classify_entries offline
    [JObj [("request", JObj [("url", JNull)])]; entry_of_url "https://i.scdn.co/image/x"] ∅
  = classify_entries offline [entry_of_url "https://i.scdn.co/image/x"] ∅.
Proof.
  apply (entry_with_scalar_url_is_skipped offline
           (JObj [("request", JObj [("url", JNull)])]) JNull
           [entry_of_url "https://i.scdn.co/image/x"] ∅); reflexivity.
Defined.

(** ** What the scanners collect *)

Lemma fold_left_elem_of {B} (f : gset string -> B -> gset string)
    (C : B -> Prop) (x : string) (l : list B) :
  (forall acc b, In b l -> (x ∈ f acc b <-> x ∈ acc \/ C b)) ->
  forall acc, x ∈ fold_left f l acc <-> x ∈ acc \/ exists b, In b l /\ C b.
Proof.
  induction l as [|b l IH]; intros Hf acc; simpl.
  - split; [auto|]. intros [H|[b [[] _]]]. exact H.
  - rewrite IH by (intros acc' b' Hb'; apply Hf; right; exact Hb').
    rewrite Hf by (left; reflexivity). split.
    + intros [[H|H]|[b' [Hb' H]]]; eauto.
    + intros [H|[b' [[<-|Hb'] H]]]; eauto.
Qed.

Lemma collect_image_elem_of (value : json) (found_urls : gset string) (x : string) :
  x ∈ collect_image value found_urls <->
  x ∈ found_urls \/ (value = JStr x /\ is_spotify_image_url (JStr x) = Ok true).
Proof.
  unfold collect_image. destruct value as [| | | |s| |];
    try (split; [auto|intros [H|[H _]]; [exact H|discriminate]]).
  destruct (is_spotify_image_url (JStr s)) as [[|]|e] eqn:Hs.
  - rewrite elem_of_union, elem_of_singleton. split.
    + intros [->|H]; auto.
    + intros [H|[[= ->] _]]; auto.
  - split; [auto|]. intros [H|[[= ->] H]]; [exact H|congruence].
  - split; [auto|]. intros [H|[[= ->] H]]; [exact H|congruence].
Qed.

Lemma collectable_scalar (v : json) (x : string) :
  match v with JObj _ | JArr _ => False | _ => True end -> ~ collectable v x.
Proof. intros Hv H. destruct H; exact Hv. Qed.

Lemma find_images_in_json_elem_of (data : json) (found_urls : gset string)
    (x : string) :
  x ∈ find_images_in_json data found_urls <-> x ∈ found_urls \/ collectable data x.
Proof.
  revert found_urls.
  induction data as [| b | z | q | s | items IH | fields IH] using json_nested_ind;
    intros found_urls;
    try (simpl; split; [auto|intros [H|H]; [exact H|]];
         exfalso; revert H; apply collectable_scalar; exact I).
  - simpl.
    rewrite (fold_left_elem_of _ (fun item => collectable item x)).
    + split; (intros [H|H]; [left; exact H|right]).
      * destruct H as [item [Hin Hc]]. eapply collectable_item; eassumption.
      * inversion H; subst. eauto.
    + intros acc item Hin. rewrite List.Forall_forall in IH. apply (IH item Hin).
  - simpl.
    rewrite (fold_left_elem_of _
               (fun kv => (is_image_key (fst kv) = true /\ snd kv = JStr x /\
                           is_spotify_image_url (JStr x) = Ok true) \/
                          (is_image_key (fst kv) = false /\ collectable (snd kv) x))).
    + split; (intros [H|H]; [left; exact H|right]).
      * destruct H as [[k v] [Hin [[Hk [Hv Hu]]|[Hk Hc]]]]; simpl in *.
        -- subst v. eapply collectable_here; eassumption.
        -- eapply collectable_field; eassumption.
      * inversion H; subst.
        -- exists (key, JStr x). split; [assumption|]. left. auto.
        -- exists (key, value). split; [assumption|]. right. auto.
    + intros acc [k v] Hin. simpl. rewrite List.Forall_forall in IH.
      specialize (IH (k, v) Hin). simpl in IH.
      destruct (is_image_key k).
      * rewrite collect_image_elem_of. split.
        -- intros [H|H]; [left; exact H|right; left; tauto].
        -- intros [H|[[_ H]|[H _]]]; [left; exact H|right; exact H|discriminate].
      * assert (Hstep : x ∈ match v with
                              | JObj _ | JArr _ => find_images_in_json v acc
                              | _ => acc
                              end <-> x ∈ acc \/ collectable v x).
        { destruct v; try apply IH;
            (split; [auto|intros [H|H]; [exact H|]];
             exfalso; revert H; apply collectable_scalar; exact I). }
        rewrite Hstep. split.
        -- intros [H|H]; [left; exact H|right; right; split; [reflexivity|exact H]].
        -- intros [H|[[H _]|[_ H]]]; [left; exact H|discriminate|right; exact H].
Qed.

(** X3: the urls [find_images_in_json] leaves in the set are the urls that
    were in it and the collectable ones: strings that name an image host
    and are stored directly under one of the six curated keys [image],
    [images], [cover_art], [avatar], [picture], [artwork], compared as they
    stand.  A string under any other key is not collected, and a list or
    object stored under a curated key is not searched. *)
Theorem find_images_in_json_collects (data : json) (found_urls : gset string)
    (x : string) :
  x ∈ find_images_in_json data found_urls <-> x ∈ found_urls \/ collectable data x.
Proof. apply find_images_in_json_elem_of. Qed.

(** ** The free-text scan *)

Lemma findall_lit_hex_absent (lit : string) (n : nat) (text : string) :
  str_in lit text = false -> forall skip, findall_lit_hex lit n skip text = [].
Proof.
  induction text as [|c text IH]; intros H skip; [reflexivity|].
  cbn [str_in] in H. apply orb_false_elim in H as [Hs Hin].
  cbn [findall_lit_hex]. destruct skip as [|k]; [|apply IH, Hin].
  unfold match_lit_hex. rewrite Hs. apply IH, Hin.
Qed.

Lemma str_app_assoc (a b c : string) :
  ((a ++ b) ++ c)%string = (a ++ b ++ c)%string.
Proof.
  induction a as [|x a IH]; [reflexivity|].
  change (String x ((a ++ b) ++ c) = String x (a ++ b ++ c))%string.
  f_equal. exact IH.
Qed.

Lemma str_in_longer (lit more text : string) :
  str_in lit text = false -> str_in (lit ++ more) text = false.
Proof.
  intros H. destruct (str_in (lit ++ more) text) eqn:Hl; [|reflexivity].
  apply str_in_spec in Hl as [a [b ->]].
  assert (Ht : str_in lit (a ++ (lit ++ more) ++ b) = true).
  { apply str_in_spec. exists a, (more ++ b)%string.
    rewrite !str_app_assoc. reflexivity. }
  congruence.
Qed.

(** X4: a text in which [ab67616] does not occur adds nothing: all three
    patterns begin with it. *)
Theorem find_image_patterns_without_prefix (text : string) (found_urls : gset string) :
  str_in "ab67616" text = false ->
  find_image_patterns_in_text text found_urls = found_urls.
Proof.
  intros H. unfold find_image_patterns_in_text, patterns. cbn [fold_left fst snd].
  rewrite (findall_lit_hex_absent "ab67616" _ _ H).
  rewrite (findall_lit_hex_absent "ab6761610000" _ _ (str_in_longer "ab67616" "10000" _ H)).
  rewrite (findall_lit_hex_absent "ab67616d" _ _ (str_in_longer "ab67616" "d" _ H)).
  reflexivity.
Qed.

Lemma find_image_patterns_without_prefix_witness :
  find_image_patterns_in_text "404 page not found" ∅ = ∅.
Proof.
  apply (find_image_patterns_without_prefix "404 page not found" ∅).
  reflexivity.
Defined.

Lemma add_all_elem_of (urls : list string) (found_urls : gset string) (x : string) :
  x ∈ add_all urls found_urls <-> x ∈ found_urls \/ In x urls.
Proof.
  unfold add_all.
  rewrite (fold_left_elem_of _ (fun u => x = u)).
  - split; (intros [H|H]; [left; exact H|right]).
    + destruct H as [u [Hu ->]]. exact Hu.
    + exists x. auto.
  - intros acc u _. rewrite elem_of_union, elem_of_singleton. tauto.
Qed.

Lemma find_image_patterns_elem_of (text : string) (found_urls : gset string) (x : string) :
  x ∈ find_image_patterns_in_text text found_urls <->
  x ∈ found_urls \/
  exists pattern m, In pattern patterns /\
                    In m (findall_lit_hex (fst pattern) (snd pattern) 0 text) /\
                    In x (image_urls m).
Proof.
  unfold find_image_patterns_in_text.
  rewrite (fold_left_elem_of _
             (fun pattern => exists m,
                In m (findall_lit_hex (fst pattern) (snd pattern) 0 text) /\
                In x (image_urls m))).
  - split; (intros [H|H]; [left; exact H|right]).
    + destruct H as [p [Hp [m Hm]]]. eauto.
    + destruct H as [p [m [Hp Hm]]]. eauto.
  - intros acc p _.
    apply (fold_left_elem_of _ (fun m => In x (image_urls m))).
    intros acc' m _. apply add_all_elem_of.
Qed.

Lemma image_urls_name_image_hosts (m x : string) :
  In x (image_urls m) -> is_spotify_image_url (JStr x) = Ok true.
Proof.
  unfold image_urls. intros [<-|[<-|[<-|[]]]]; apply any_in_str_spec.
  - exists "i.scdn.co", "https://", ("/image/" ++ m)%string.
    split; [simpl; tauto|reflexivity].
  - exists "mosaic.scdn.co", "https://", ("/640/" ++ m)%string.
    split; [simpl; tauto|reflexivity].
  - exists "mosaic.scdn.co", "https://", ("/300/" ++ m)%string.
    split; [simpl; tauto|reflexivity].
Qed.

Lemma collectable_names_image_host (data : json) (x : string) :
  collectable data x -> is_spotify_image_url (JStr x) = Ok true.
Proof. induction 1; assumption. Qed.

Lemma grows_refl (found_urls : gset string) : grows_by_image_urls found_urls found_urls.
Proof. split; [reflexivity|auto]. Qed.

Lemma grows_trans (a b c : gset string) :
  grows_by_image_urls a b -> grows_by_image_urls b c -> grows_by_image_urls a c.
Proof. intros [H1 H2] [H3 H4]. split; [etransitivity; eassumption|auto]. Qed.

Lemma find_images_in_json_grows (data : json) (found_urls : gset string) :
  grows_by_image_urls found_urls (find_images_in_json data found_urls).
Proof.
  split.
  - intros x Hx. apply find_images_in_json_elem_of. left. exact Hx.
  - intros Hf x Hx. apply find_images_in_json_elem_of in Hx as [Hx|Hx];
      [apply Hf, Hx|eapply collectable_names_image_host, Hx].
Qed.

Lemma find_image_patterns_grows (text : string) (found_urls : gset string) :
  grows_by_image_urls found_urls (find_image_patterns_in_text text found_urls).
Proof.
  split.
  - intros x Hx. apply find_image_patterns_elem_of. left. exact Hx.
  - intros Hf x Hx. apply find_image_patterns_elem_of in Hx as [Hx|[p [m [_ [_ Hx]]]]];
      [apply Hf, Hx|eapply image_urls_name_image_hosts, Hx].
Qed.

Lemma scan_text_grows (E : Env) (text : json) (found_urls found' : gset string) :
  scan_text E text found_urls = Ok found' -> grows_by_image_urls found_urls found'.
Proof.
  unfold scan_text. destruct text as [| | | |s| |]; try discriminate.
  destruct (json_loads E s); intros [= <-];
    [apply find_images_in_json_grows|apply find_image_patterns_grows].
Qed.

Lemma extract_api_image_references_grows (E : Env) (entry : json)
    (found_urls : gset string) :
  grows_by_image_urls found_urls (extract_api_image_references E entry found_urls).
Proof.
  unfold extract_api_image_references.
  match goal with
  | |- grows_by_image_urls _ (match ?a with Ok f => f | Raise _ => _ end) =>
      destruct a as [f|] eqn:H
  end; [|apply grows_refl].
  inv_bind H; try (apply Ok_inj in H); subst; try apply grows_refl;
    try (eapply scan_text_grows; eassumption).
  match type of H with
  | match ?d with Ok _ => _ | Raise _ => _ end = _ => destruct d as [s|]
  end; [eapply scan_text_grows; eassumption|].
  apply Ok_inj in H. subst. apply grows_refl.
Qed.

(** ** Classification *)

Lemma new_media_info_url (entry request response u : json) (m : media_info) :
  new_media_info entry request response u = Ok m -> url m = u.
Proof. unfold new_media_info. intros H. inv_bind H. subst m. reflexivity. Qed.

Lemma image_entry_url (E : Env) (entry request response u : json) (m : media_info) :
  image_entry E entry request response u = Ok m -> url m = u.
Proof.
  unfold image_entry. intros H. inv_bind H; subst; rewrite ?try_decode_url;
    cbn [url set_content]; eapply new_media_info_url; eassumption.
Qed.

Lemma video_entry_url (E : Env) (entry request response u : json) (m : media_info) :
  video_entry E entry request response u = Ok m -> url m = u.
Proof.
  unfold video_entry. intros H. inv_bind H; subst; rewrite ?try_decode_url;
    cbn [url set_content]; eapply new_media_info_url; eassumption.
Qed.

(** the url of a candidate is the request url of its entry and passes the
    image test or the video test; an entry that yields no candidate leaves
    a set grown by image-host urls *)
Lemma classify_entry_cases (E : Env) (entry : json) (found found' : gset string)
    (c : option media_info) :
  classify_entry E entry found = Ok (c, found') ->
  match c with
  | Some m =>
      found' = found /\ request_url entry = Ok (url m) /\
      (is_spotify_image_url (url m) = Ok true \/
       is_spotify_video_url (url m) = Ok true)
  | None => grows_by_image_urls found found'
  end.
Proof.
  unfold classify_entry, request_url. intros H. inv_bind H; simplify_eq.
  - run_binds. repeat split; try reflexivity.
    + erewrite image_entry_url by eassumption. assumption.
    + left. erewrite image_entry_url by eassumption. assumption.
  - run_binds. repeat split; try reflexivity.
    + erewrite video_entry_url by eassumption. assumption.
    + right. erewrite video_entry_url by eassumption. assumption.
  - apply extract_api_image_references_grows.
  - apply grows_refl.
Qed.

Lemma classify_entries_cases (E : Env) (entries : list json) :
  forall found media found',
  classify_entries E entries found = (media, found') ->
  List.length media <= List.length entries /\
  grows_by_image_urls found found' /\
  Forall (fun m => exists entry, In entry entries /\ request_url entry = Ok (url m) /\
                   (is_spotify_image_url (url m) = Ok true \/
                    is_spotify_video_url (url m) = Ok true)) media.
Proof.
  induction entries as [|entry entries IH]; intros found media found' H; simpl in H.
  - injection H as <- <-. split; [reflexivity|]. split; [apply grows_refl|constructor].
  - destruct (classify_entry E entry found) as [[[m|] f]|e] eqn:Hc.
    + apply classify_entry_cases in Hc as [-> [Hu Ht]].
      destruct (classify_entries E entries found) as [ms f'] eqn:Hr.
      injection H as <- <-. destruct (IH _ _ _ Hr) as [Hl [Hg Hf]].
      split; [simpl; lia|]. split; [exact Hg|].
      constructor; [exists entry; simpl; auto|].
      eapply Forall_impl; [exact Hf|]. intros x [e' [He' Hx]]. exists e'. simpl. auto.
    + apply classify_entry_cases in Hc.
      destruct (IH _ _ _ H) as [Hl [Hg Hf]].
      split; [simpl; lia|]. split; [eapply grows_trans; eassumption|].
      eapply Forall_impl; [exact Hf|]. intros x [e' [He' Hx]]. exists e'. simpl. auto.
    + destruct (IH _ _ _ H) as [Hl [Hg Hf]].
      split; [simpl; lia|]. split; [exact Hg|].
      eapply Forall_impl; [exact Hf|]. intros x [e' [He' Hx]]. exists e'. simpl. auto.
Qed.

(** X5: [extract_spotify_images] only adds to the discovered urls, and what
    it adds names an image host: if every url of the set did before the
    call, every url of the set does after it. *)
Theorem extract_spotify_images_grows (E : Env) (har_data : json)
    (found_urls found_urls' : gset string) (extracted_media : list media_info) :
  extract_spotify_images E har_data found_urls = Ok (extracted_media, found_urls') ->
  found_urls ⊆ found_urls' /\
  (image_urls_only found_urls -> image_urls_only found_urls').
Proof.
  unfold extract_spotify_images. intros H. inv_bind H.
  - simplify_eq. apply grows_refl.
  - apply classify_entries_cases in H as [_ [Hg _]]. exact Hg.
Qed.

Lemma extract_spotify_images_grows_witness :
  ({["https://i.scdn.co/image/old"]} : gset string)
    ⊆ {["https://i.scdn.co/image/abc"; "https://i.scdn.co/image/old"]} /\
  (image_urls_only {["https://i.scdn.co/image/old"]} ->
   image_urls_only {["https://i.scdn.co/image/abc"; "https://i.scdn.co/image/old"]}).
Proof.
  apply (extract_spotify_images_grows api_world (api_capture "artist")
           {["https://i.scdn.co/image/old"]}
           {["https://i.scdn.co/image/abc"; "https://i.scdn.co/image/old"]} []).
  vm_compute. reflexivity.
Defined.

(** X6: on a document whose [log.entries] is a list, [extract_spotify_images]
    returns: no entry can make it raise.  It yields at most one candidate
    per entry, and the url of every candidate is the request url of an
    entry and passes the image-host or the video-host test. *)
Theorem extract_spotify_images_total (E : Env)
    (fields log_fields : list (string * json)) (entries : list json)
    (found_urls : gset string) :
  alist_get "log" fields = Some (JObj log_fields) ->
  alist_get "entries" log_fields = Some (JArr entries) ->
  exists extracted_media found_urls',
    extract_spotify_images E (JObj fields) found_urls = Ok (extracted_media, found_urls') /\
    List.length extracted_media <= List.length entries /\
    Forall (fun m => exists entry, In entry entries /\ request_url entry = Ok (url m) /\
                     (is_spotify_image_url (url m) = Ok true \/
                      is_spotify_video_url (url m) = Ok true)) extracted_media.
Proof.
  intros Hlog Hentries.
  destruct (classify_entries E entries found_urls) as [media found'] eqn:Hc.
  exists media, found'. split.
  - unfold extract_spotify_images, por.
    rewrite (py_in_obj_present _ _ _ Hlog). run_binds. cbn [negb].
    unfold py_index. rewrite Hlog. run_binds.
    rewrite (py_in_obj_present _ _ _ Hentries). run_binds. cbn [negb].
    rewrite Hentries. run_binds. cbn [py_len py_iter]. run_binds.
    rewrite Hc. reflexivity.
  - apply classify_entries_cases in Hc as [Hl [_ Hf]]. split; assumption.
Qed.

Lemma extract_spotify_images_total_witness :
  exists extracted_media found_urls',
    extract_spotify_images offline (capture mixed_entries) ∅
    = Ok (extracted_media, found_urls') /\
    List.length extracted_media <= List.length mixed_entries /\
    Forall (fun m => exists entry,
              In entry mixed_entries /\
              request_url entry = Ok (url m) /\
              (is_spotify_image_url (url m) = Ok true \/
               is_spotify_video_url (url m) = Ok true)) extracted_media.
Proof.
  apply (extract_spotify_images_total offline
           [("log", JObj [("entries", JArr mixed_entries)])]
           [("entries", JArr mixed_entries)] mixed_entries ∅); reflexivity.
Defined.

(** ** Downloads *)

Lemma fetch_media_cases (E : Env) (m : media_info) (u : string)
    (m' : media_info) (w : option (string * bytes)) :
  fetch_media E m u = Ok (m', w) ->
  (m' = m /\ (w = None \/ exists r, requests_get E u = Ok r /\
                                    status_code r = 200%Z /\ 100 < List.length (body r))) \/
  (exists r, requests_get E u = Ok r /\ status_code r = 200%Z /\
             100 < List.length (body r) /\ w <> None /\
             m' = set_segment m (body r) (segment_role_of_url u)).
Proof.
  unfold fetch_media. intros H. inv_bind H; simplify_eq.
  - apply andb_prop in Hb as [Hs Hl]. apply Z.eqb_eq in Hs. apply Nat.ltb_lt in Hl.
    match goal with
    | |- context [if ?b then set_segment _ _ _ else _] => destruct b
    end.
    + right. exists r. split; [reflexivity|]. split; [exact Hs|]. split; [exact Hl|].
      split; [discriminate|reflexivity].
    + left. split; [reflexivity|]. right. exists r. auto.
  - apply andb_prop in Hb as [Hs Hl]. apply Z.eqb_eq in Hs. apply Nat.ltb_lt in Hl.
    left. split; [reflexivity|]. right. exists r. auto.
  - left. auto.
Qed.

Lemma download_media_state (E : Env) (m : media_info) :
  unfetched m ->
  let m' := fst (download_media E m) in
  url m' = url m /\ content_type m' = content_type m /\
  decoded_data m' = decoded_data m /\ fields_of_entry m' = fields_of_entry m /\
  content m' = content m /\ fetched_state E m'.
Proof.
  intros Hm. unfold download_media.
  destruct (decoded_data m) as [data|] eqn:Hd; simpl.
  { repeat split; try assumption. left. exact Hm. }
  destruct (url m) as [| | | |u| |] eqn:Hu; simpl;
    try (repeat split; try assumption; left; exact Hm).
  destruct (fetch_media E m u) as [[m' w]|e] eqn:Hf; simpl;
    [|repeat split; try assumption; left; exact Hm].
  apply fetch_media_cases in Hf as [[-> _]|[r [Hr [Hs [Hl [_ ->]]]]]].
  - repeat split; try assumption. left. exact Hm.
  - repeat split; try assumption. right. split; [reflexivity|].
    exists u, r. repeat split; assumption.
Qed.

Lemma download_all_state (E : Env) (l : list media_info) :
  Forall unfetched l ->
  map url (fst (download_all E l)) = map url l /\
  map content_type (fst (download_all E l)) = map content_type l /\
  map decoded_data (fst (download_all E l)) = map decoded_data l /\
  Forall (fetched_state E) (fst (download_all E l)).
Proof.
  induction 1 as [|m l Hm Hl IH]; simpl; [repeat split; constructor|].
  pose proof (download_media_state E m Hm) as Hd. cbv zeta in Hd.
  destruct (download_media E m) as [m' w]. destruct (download_all E l) as [ms ws].
  simpl in *. destruct Hd as [H1 [H2 [H3 [_ [_ H6]]]]].
  destruct IH as [I1 [I2 [I3 I4]]].
  rewrite H1, H2, H3, I1, I2, I3. repeat split. constructor; assumption.
Qed.

(** X7: the download loop changes nothing on a candidate but its three
    segment keys: urls, content types and embedded payloads are as they
    were.  A candidate that comes out flagged as a video segment has a
    [str] url, holds as segment data the very body the server returned for
    that url, a body of more than 100 bytes sent with status 200, has the
    role its url gives it, and carries no embedded payload. *)
Theorem download_all_keeps_candidates (E : Env) (har_data : json)
    (found_urls found_urls' : gset string) (extracted_media : list media_info) :
  extract_spotify_images E har_data found_urls = Ok (extracted_media, found_urls') ->
  map url (fst (download_all E extracted_media)) = map url extracted_media /\
  map content_type (fst (download_all E extracted_media))
    = map content_type extracted_media /\
  map decoded_data (fst (download_all E extracted_media))
    = map decoded_data extracted_media /\
  Forall (fetched_state E) (fst (download_all E extracted_media)).
Proof.
  intros H. apply download_all_state.
  eapply extract_spotify_images_unfetched, H.
Qed.

Lemma download_all_keeps_candidates_witness :
  map url (resolved decoding_cdn embedded_capture)
    = map url (media_of (extract_spotify_images decoding_cdn embedded_capture ∅)) /\
  map content_type (resolved decoding_cdn embedded_capture)
    = map content_type (media_of (extract_spotify_images decoding_cdn embedded_capture ∅)) /\
  map decoded_data (resolved decoding_cdn embedded_capture)
    = map decoded_data (media_of (extract_spotify_images decoding_cdn embedded_capture ∅)) /\
  Forall (fetched_state decoding_cdn) (resolved decoding_cdn embedded_capture).
Proof.
  apply (download_all_keeps_candidates decoding_cdn embedded_capture ∅ ∅
           (media_of (extract_spotify_images decoding_cdn embedded_capture ∅))).
  vm_compute. reflexivity.
Defined.

(** X8: a fetch is accepted only with status 200 and a body of more than
    100 bytes.  When the request raises, the status differs from 200 or the
    body has 100 bytes or fewer, [download_media] writes no file, returns
    no path and leaves the candidate as it was. *)
Theorem download_media_rejects (E : Env) (m : media_info) (u : string) :
  decoded_data m = None ->
  url m = JStr u ->
  ((exists e, requests_get E u = Raise e) \/
   exists r, requests_get E u = Ok r /\
             (status_code r <> 200%Z \/ List.length (body r) <= 100)) ->
  download_media E m = (m, None).
Proof.
  intros Hd Hu Hr. unfold download_media, fetch_media. rewrite Hd, Hu.
  destruct Hr as [[e ->]|[r [-> Hr]]]; [reflexivity|]. run_binds.
  assert (Hb : (status_code r =? 200)%Z && (100 <? List.length (body r))%nat = false).
  { apply andb_false_iff. destruct Hr as [Hs|Hl].
    - left. apply Z.eqb_neq, Hs.
    - right. apply Nat.ltb_ge, Hl. }
  rewrite Hb. reflexivity.
Qed.

Lemma download_media_rejects_witness :
  download_media short_cdn (promoted (canvas_base ++ "0.webm"))
  = (promoted (canvas_base ++ "0.webm"), None).
Proof.
  apply (download_media_rejects short_cdn (promoted (canvas_base ++ "0.webm"))
           (canvas_base ++ "0.webm")).
  - reflexivity.
  - reflexivity.
  - right. eexists. split; [reflexivity|]. right. simpl. lia.
Defined.

(** ** Whole runs *)

Lemma extract_spotify_images_entries (E : Env)
    (fields log_fields : list (string * json)) (entries : list json)
    (found_urls : gset string) :
  alist_get "log" fields = Some (JObj log_fields) ->
  alist_get "entries" log_fields = Some (JArr entries) ->
  extract_spotify_images E (JObj fields) found_urls
  = Ok (classify_entries E entries found_urls).
Proof.
  intros Hlog Hentries. unfold extract_spotify_images, por.
  rewrite (py_in_obj_present _ _ _ Hlog). run_binds. cbn [negb].
  unfold py_index. rewrite Hlog. run_binds.
  rewrite (py_in_obj_present _ _ _ Hentries). run_binds. cbn [negb].
  rewrite Hentries. run_binds. cbn [py_len py_iter]. run_binds. reflexivity.
Qed.

Lemma fetched_state_group_key (E : Env) (m : media_info) :
  fetched_state E m -> is_ok (group_key m) = true.
Proof.
  unfold group_key. intros [[H _]|[H [u [r [Hu _]]]]]; rewrite H; [reflexivity|].
  rewrite Hu. cbn [py_in]. run_binds.
  destruct (str_in _ u); [|reflexivity].
  destruct (search_source u), (search_profile u); reflexivity.
Qed.

Lemma combine_webm_segments_ok (E : Env) (l : list media_info) :
  Forall (fetched_state E) l -> exists c, combine_webm_segments E l = Ok c.
Proof.
  intros H. destruct (group_segments_of_ok l) with (groups := @nil (string * segment_group))
    as [groups Hg].
  - eapply Forall_impl; [exact H|]. apply (fetched_state_group_key E).
  - unfold combine_webm_segments. rewrite Hg. eexists. reflexivity.
Qed.

Lemma Forall_of_map {A B} (f : A -> B) (P : B -> Prop) (l l' : list A) :
  map f l' = map f l -> Forall (fun x => P (f x)) l -> Forall (fun x => P (f x)) l'.
Proof.
  revert l'. induction l as [|x l IH]; intros [|y l'] Hm H; try discriminate;
    [constructor|].
  injection Hm as Hy Hm. inversion H; subst. constructor; [rewrite Hy; assumption|].
  apply IH; assumption.
Qed.

Lemma Exists_of_map {A B} (f : A -> B) (P : B -> Prop) (l l' : list A) :
  map f l' = map f l -> Exists (fun x => P (f x)) l -> Exists (fun x => P (f x)) l'.
Proof.
  revert l'. induction l as [|x l IH]; intros [|y l'] Hm H; try discriminate;
    [inversion H|].
  injection Hm as Hy Hm. inversion H; subst.
  - left. rewrite Hy. assumption.
  - right. apply IH; assumption.
Qed.

Lemma py_in_scalar (word : string) (v : json) :
  is_scalar v = true -> py_in word v = Raise TypeError.
Proof. destruct v; try discriminate; reflexivity. Qed.

Lemma py_in_not_scalar (word : string) (v : json) :
  is_scalar v = false -> exists b, py_in word v = Ok b.
Proof. destruct v; try discriminate; eexists; reflexivity. Qed.

Lemma count_content_type_ok (word : string) (l : list media_info) :
  Forall (fun m => is_scalar (content_type m) = false) l ->
  exists n, count_content_type word l = Ok n.
Proof.
  induction 1 as [|m l Hm Hl [n IH]]; simpl; [eexists; reflexivity|].
  destruct (py_in_not_scalar word _ Hm) as [b ->]. run_binds. rewrite IH.
  eexists. reflexivity.
Qed.

Lemma count_content_type_raises (word : string) (l : list media_info) :
  Exists (fun m => is_scalar (content_type m) = true) l ->
  count_content_type word l = Raise TypeError.
Proof.
  induction 1 as [m l Hm|m l Hl IH]; simpl.
  - rewrite (py_in_scalar word _ Hm). reflexivity.
  - destruct (is_scalar (content_type m)) eqn:Hm.
    + rewrite (py_in_scalar word _ Hm). reflexivity.
    + destruct (py_in_not_scalar word _ Hm) as [b ->]. run_binds. rewrite IH.
      reflexivity.
Qed.

(** the run up to the report, on a document whose [log.entries] is a list *)
Lemma process_har_data_steps (E : Env)
    (fields log_fields : list (string * json)) (entries : list json)
    (found_urls : gset string) :
  alist_get "log" fields = Some (JObj log_fields) ->
  alist_get "entries" log_fields = Some (JArr entries) ->
  exists c,
    combine_webm_segments E
      (fst (download_all E (fst (classify_entries E entries found_urls)))) = Ok c /\
    process_har_data E (JObj fields) found_urls
    = let found' := snd (classify_entries E entries found_urls) in
      let media := fst (download_all E (fst (classify_entries E entries found_urls))) in
      let fetched := snd (download_all E (fst (classify_entries E entries found_urls))) in
      let promoted_files := download_found E (elements found') media in
      '(report, numbers) ← save_analysis_report E (JObj fields) media found';
      Ok {| run_results :=
              {| success := true;
                 total_media_found := List.length media;
                 downloaded_files :=
                   map fst fetched ++ combined_videos c ++ map fst promoted_files;
                 combined_videos_count := List.length (combined_videos c);
                 report_file := report;
                 results_output_folder := output_folder |};
            run_media := media;
            run_found_urls := found';
            run_files := fetched ++ written c ++ promoted_files;
            run_report := numbers |}.
Proof.
  intros Hlog Hentries.
  pose proof (classify_entries_unfetched E entries found_urls) as Hu.
  destruct (combine_webm_segments_ok E
              (fst (download_all E (fst (classify_entries E entries found_urls)))))
    as [c Hc].
  { apply download_all_state, Hu. }
  exists c. split; [exact Hc|].
  unfold process_har_data.
  rewrite (extract_spotify_images_entries E _ _ _ _ Hlog Hentries).
  destruct (classify_entries E entries found_urls) as [media0 found'].
  run_binds. simpl fst in *. simpl snd.
  destruct (download_all E media0) as [media fetched]. simpl fst in *. simpl snd.
  rewrite Hc. reflexivity.
Qed.

Lemma save_analysis_report_entries (E : Env)
    (fields log_fields : list (string * json)) (entries : list json)
    (media : list media_info) (found_urls : gset string) :
  alist_get "log" fields = Some (JObj log_fields) ->
  alist_get "entries" log_fields = Some (JArr entries) ->
  save_analysis_report E (JObj fields) media found_urls
  = (n_images ← count_content_type "image" media;
     n_videos ← count_content_type "video" media;
     Ok (path_join data_folder ("har_analysis_" ++ str_of_int (now E) ++ ".json")%string,
         {| report_total_entries := List.length entries;
            report_total_media_found := List.length media;
            report_images := n_images;
            report_videos := n_videos;
            report_unique_urls := size found_urls |})).
Proof.
  intros Hlog Hentries. unfold save_analysis_report. cbn [py_get]. rewrite Hlog.
  run_binds. cbn [default from_option id py_get]. rewrite Hentries.
  cbn [default from_option id py_len]. reflexivity.
Qed.

(** X9: on a document whose [log.entries] is a list, the run returns,
    provided no candidate has [null], a boolean or a number as content
    type.  The result has [success] set, counts the candidates of the
    classification, none lost or added by the downloads, and the report
    counts the entries of the document. *)
Theorem process_har_data_total (E : Env)
    (fields log_fields : list (string * json)) (entries : list json)
    (found_urls : gset string) :
  alist_get "log" fields = Some (JObj log_fields) ->
  alist_get "entries" log_fields = Some (JArr entries) ->
  Forall (fun m => is_scalar (content_type m) = false)
         (fst (classify_entries E entries found_urls)) ->
  exists r,
    process_har_data E (JObj fields) found_urls = Ok r /\
    success (run_results r) = true /\
    total_media_found (run_results r)
      = List.length (fst (classify_entries E entries found_urls)) /\
    map url (run_media r) = map url (fst (classify_entries E entries found_urls)) /\
    report_total_entries (run_report r) = List.length entries.
Proof.
  intros Hlog Hentries Hct.
  destruct (process_har_data_steps E fields log_fields entries found_urls Hlog Hentries)
    as [c [_ ->]].
  pose proof (download_all_state E _ (classify_entries_unfetched E entries found_urls))
    as [Hurl [Hcts _]].
  cbv zeta. rewrite (save_analysis_report_entries E _ _ _ _ _ Hlog Hentries).
  assert (Hct' : Forall (fun m => is_scalar (content_type m) = false)
                   (fst (download_all E (fst (classify_entries E entries found_urls))))).
  { exact (Forall_of_map content_type (fun v => is_scalar v = false) _ _ Hcts Hct). }
  destruct (count_content_type_ok "image" _ Hct') as [ni ->].
  destruct (count_content_type_ok "video" _ Hct') as [nv ->].
  run_binds. eexists. split; [reflexivity|]. cbn.
  repeat split; [|exact Hurl].
  rewrite <- (length_map url), Hurl, length_map. reflexivity.
Qed.

Lemma process_har_data_total_witness :
  exists r,
    process_har_data canvas_cdn scrambled_capture ∅ = Ok r /\
    success (run_results r) = true /\
    total_media_found (run_results r) = 5 /\
    map url (run_media r)
      = map url (media_of (extract_spotify_images canvas_cdn scrambled_capture ∅)) /\
    report_total_entries (run_report r) = 5.
Proof.
  apply (process_har_data_total canvas_cdn
           [("log", JObj [("entries",
               JArr [ entry_of_url (canvas_base ++ "2.webm");
                      entry_of_url (other_base ++ "0.webm");
                      entry_of_url (canvas_base ++ "0.webm");
                      entry_of_url (canvas_base ++ "inits/webm.webm");
                      entry_of_url (canvas_base ++ "1.webm") ])])]
           [("entries",
               JArr [ entry_of_url (canvas_base ++ "2.webm");
                      entry_of_url (other_base ++ "0.webm");
                      entry_of_url (canvas_base ++ "0.webm");
                      entry_of_url (canvas_base ++ "inits/webm.webm");
                      entry_of_url (canvas_base ++ "1.webm") ])]
           [ entry_of_url (canvas_base ++ "2.webm");
             entry_of_url (other_base ++ "0.webm");
             entry_of_url (canvas_base ++ "0.webm");
             entry_of_url (canvas_base ++ "inits/webm.webm");
             entry_of_url (canvas_base ++ "1.webm") ] ∅).
  - reflexivity.
  - reflexivity.
  - forall_by_computation.
Defined.

(** X10: when a candidate has [null], a boolean or a number as content
    type (the value of its content-type header), the run raises
    [TypeError]: [save_analysis_report] tests ['image' in] that value, and
    [process_har_data] catches nothing there.  The downloads and the
    assembly have been done by then. *)
Theorem process_har_data_scalar_content_type (E : Env)
    (fields log_fields : list (string * json)) (entries : list json)
    (found_urls : gset string) :
  alist_get "log" fields = Some (JObj log_fields) ->
  alist_get "entries" log_fields = Some (JArr entries) ->
  Exists (fun m => is_scalar (content_type m) = true)
         (fst (classify_entries E entries found_urls)) ->
  process_har_data E (JObj fields) found_urls = Raise TypeError.
Proof.
  intros Hlog Hentries Hct.
  destruct (process_har_data_steps E fields log_fields entries found_urls Hlog Hentries)
    as [c [_ ->]].
  pose proof (download_all_state E _ (classify_entries_unfetched E entries found_urls))
    as [_ [Hcts _]].
  cbv zeta. rewrite (save_analysis_report_entries E _ _ _ _ _ Hlog Hentries).
  rewrite (count_content_type_raises "image"); [reflexivity|].
  exact (Exists_of_map content_type (fun v => is_scalar v = true) _ _ Hcts Hct).
Qed.

Lemma process_har_data_scalar_content_type_witness :
  process_har_data canvas_cdn (capture [null_content_type_entry]) ∅ = Raise TypeError.
Proof.
  apply (process_har_data_scalar_content_type canvas_cdn
           [("log", JObj [("entries", JArr [null_content_type_entry])])]
           [("entries", JArr [null_content_type_entry])]
           [null_content_type_entry] ∅).
  - reflexivity.
  - reflexivity.
  - left. reflexivity.
Defined.

(** ** More on assembly *)

(** X11: the bytes of a group in general.  The init candidate is the last
    init candidate of the group in the input list; when [int] accepts the
    digits of every other candidate of the group, the file of the group
    holds the bytes of the init candidate followed by the bytes of all
    other candidates of the group in the order of the stable sort by
    segment number; the file is written once. *)
Theorem combine_webm_segments_bytes (E : Env) (extracted_media : list media_info)
    (key : string) (init_segment : media_info) (di : bytes) :
  Forall (fun m => is_ok (group_key m) = true) extracted_media ->
  Forall (fun m => is_video_segment m = true -> segment_data m <> None) extracted_media ->
  Forall (fun s => number_readable s = true) (media_segments key extracted_media) ->
  last_init (List.filter (in_group key) extracted_media) = Some init_segment ->
  segment_data init_segment = Some di ->
  List.filter (fun m => negb (is_init m)) (List.filter (in_group key) extracted_media)
    <> [] ->
  exists c, combine_webm_segments E extracted_media = Ok c /\
    In (output_path_of key,
        di ++ flat_map segment_bytes (media_segments key extracted_media))
       (written c) /\
    (forall d, In (output_path_of key, d) (written c) ->
       d = di ++ flat_map segment_bytes (media_segments key extracted_media)).
Proof.
  intros Hok Hdata _ Hlast Hdi Hne.
  exact (combine_webm_segments_group_bytes E extracted_media key init_segment di
           Hok Hdata Hlast Hdi Hne).
Qed.

Lemma combine_webm_segments_bytes_witness :
  exists c, combine_webm_segments canvas_cdn two_inits = Ok c /\
    In (output_path_of "ab12cd_profile_11",
        payload (canvas_base ++ "inits/c.webm")
        ++ payload (canvas_base ++ "b.webm") ++ payload (canvas_base ++ "a.webm"))
       (written c).
Proof.
  destruct (combine_webm_segments_bytes canvas_cdn two_inits "ab12cd_profile_11"
              (fetched (canvas_base ++ "inits/c.webm"))
              (payload (canvas_base ++ "inits/c.webm"))) as [c [Hc [Hin _]]].
  - forall_by_computation.
  - forall_by_computation.
  - forall_by_computation.
  - reflexivity.
  - reflexivity.
  - vm_compute. discriminate.
  - exists c. split; [exact Hc|].
    vm_compute. vm_compute in Hin. exact Hin.
Defined.

Lemma combined_data_of_complete (g : segment_group) (d : bytes) :
  combined_data_of g = Some d ->
  (exists i, group_init g = Some i) /\ group_segments g <> [].
Proof.
  unfold combined_data_of. destruct (group_init g) as [i|]; [|discriminate].
  destruct (sorted_by segment_number (group_segments g)) as [|s l] eqn:Hs;
    [discriminate|].
  intros _. split; [eauto|]. intros Hnil. rewrite Hnil in Hs. discriminate.
Qed.

(** X12: [combine_webm_segments] writes a file only for a group that has
    an init candidate and at least one other candidate.  A group without
    init segment, or with nothing but init segments, leaves no file behind;
    with no flagged candidate at all nothing is written.  Every file it
    writes is named after the key of a group. *)
Theorem combine_webm_segments_complete_groups (E : Env)
    (extracted_media : list media_info) :
  Forall (fun m => is_ok (group_key m) = true) extracted_media ->
  exists c, combine_webm_segments E extracted_media = Ok c /\
    forall path d, In (path, d) (written c) ->
      exists key, path = output_path_of key /\
        (exists i, In i extracted_media /\ in_group key i = true /\ is_init i = true) /\
        (exists s, In s extracted_media /\ in_group key s = true /\ is_init s = false).
Proof.
  intros Hok.
  destruct (group_segments_of_ok extracted_media Hok []) as [groups Hg].
  unfold combine_webm_segments. rewrite Hg. eexists. split; [reflexivity|].
  intros path d Hin. cbn in Hin.
  apply combine_groups_written in Hin as [key [g [Hkg [-> Hd]]]].
  exists key. split; [reflexivity|].
  apply alist_get_NoDup in Hkg;
    [|apply (group_segments_of_keys extracted_media _ _ Hg); constructor].
  rewrite (group_segments_of_get key extracted_media _ _ Hg) in Hkg.
  destruct (List.filter (in_group key) extracted_media) as [|m ms] eqn:Hf;
    [discriminate|].
  injection Hkg as <-.
  change (combined_data_of (filed (m :: ms) empty_group) = Some d) in Hd.
  apply combined_data_of_complete in Hd as [[i Hi] Hs].
  rewrite filed_group_init in Hi. rewrite filed_segments in Hs.
  cbn [group_init group_segments empty_group app] in Hi, Hs. split.
  - destruct (last_init (m :: ms)) as [i'|] eqn:Hl; [|cbn in Hi; discriminate Hi].
    apply last_init_In in Hl as [Hl1 Hl2]. exists i'.
    rewrite <- Hf in Hl1. apply filter_In in Hl1 as [H1 H2]. auto.
  - destruct (List.filter (fun m0 => negb (is_init m0)) (m :: ms)) as [|s l] eqn:Hn;
      [exfalso; apply Hs; reflexivity|].
    assert (Hs' : In s (List.filter (fun m0 => negb (is_init m0)) (m :: ms)))
      by (rewrite Hn; left; reflexivity).
    apply filter_In in Hs' as [H1 H2]. rewrite <- Hf in H1.
    apply filter_In in H1 as [H1 H3]. exists s.
    apply negb_true_iff in H2. auto.
Qed.

Lemma combine_webm_segments_complete_groups_witness :
  exists c,
    combine_webm_segments canvas_cdn
      [fetched (canvas_base ++ "0.webm"); fetched (other_base ++ "inits/i.webm")] = Ok c /\
    forall path d, In (path, d) (written c) ->
      exists key, path = output_path_of key /\
        (exists i, In i [fetched (canvas_base ++ "0.webm");
                         fetched (other_base ++ "inits/i.webm")] /\
                   in_group key i = true /\ is_init i = true) /\
        (exists s, In s [fetched (canvas_base ++ "0.webm");
                         fetched (other_base ++ "inits/i.webm")] /\
                   in_group key s = true /\ is_init s = false).
Proof.
  apply (combine_webm_segments_complete_groups canvas_cdn
           [fetched (canvas_base ++ "0.webm"); fetched (other_base ++ "inits/i.webm")]).
  forall_by_computation.
Defined.

(** *** Order of the segments *)

Lemma insert_by_with_key {A} (key : A -> N) (k : N) (x : A) (l : list A) :
  List.filter (fun y => (key y =? k)%N) (insert_by key x l)
  = List.filter (fun y => (key y =? k)%N) (x :: l).
Proof.
  induction l as [|y l IH]; [reflexivity|].
  cbn [insert_by]. destruct (N.leb_spec (key x) (key y)) as [Hxy|Hxy]; [reflexivity|].
  cbn [List.filter] in *. rewrite IH.
  destruct (N.eqb_spec (key x) k) as [Hx|Hx]; [|reflexivity].
  destruct (N.eqb_spec (key y) k) as [Hy|Hy]; [lia|reflexivity].
Qed.

Lemma sorted_by_with_key {A} (key : A -> N) (k : N) (l : list A) :
  List.filter (fun y => (key y =? k)%N) (sorted_by key l)
  = List.filter (fun y => (key y =? k)%N) l.
Proof.
  induction l as [|x l IH]; [reflexivity|].
  cbn [sorted_by]. rewrite insert_by_with_key. cbn [List.filter]. rewrite IH.
  reflexivity.
Qed.

(** X13: the order in which the media segments of a group are
    concatenated: ascending by segment number, with every segment of the
    group once, and with segments of equal number (for instance all those
    whose url names no number, which count as 0) in the order of the input
    list. *)
Theorem media_segments_order (l : list media_info) :
  StronglySorted (key_le segment_number) (sorted_by segment_number l) /\
  Permutation (sorted_by segment_number l) l /\
  forall k, with_number k (sorted_by segment_number l) = with_number k l.
Proof.
  split; [apply sorted_by_sorted|]. split; [apply sorted_by_Permutation|].
  intros k. apply sorted_by_with_key.
Qed.

(** *** Group keys *)

Lemma str_span_all (cls : ascii -> bool) (s : string) :
  str_all cls (fst (str_span cls s)) = true.
Proof.
  induction s as [|c s IH]; simpl; [reflexivity|].
  destruct (cls c) eqn:Hc; [|reflexivity].
  destruct (str_span cls s) as [a b]. simpl in *. rewrite Hc, IH. reflexivity.
Qed.

Lemma search_run_all (pre : string) (cls : ascii -> bool) (post s g : string) :
  search_run pre cls post s = Some g -> str_all cls g = true /\ g <> "".
Proof.
  induction s as [|c s IH]; cbn [search_run]; unfold match_run.
  - destruct (startswith pre ""); [|discriminate].
    pose proof (str_span_all cls (str_drop (String.length pre) "")) as Ha.
    destruct (str_span cls (str_drop (String.length pre) "")) as [run rest].
    destruct (String.eqb_spec run ""); simpl; [discriminate|].
    destruct (startswith post rest); [|discriminate]. intros [= <-]. auto.
  - destruct (startswith pre (String c s)); [|exact IH].
    pose proof (str_span_all cls (str_drop (String.length pre) (String c s))) as Ha.
    destruct (str_span cls (str_drop (String.length pre) (String c s))) as [run rest].
    destruct (String.eqb_spec run ""); simpl; [exact IH|].
    destruct (startswith post rest); [|exact IH]. intros [= <-]. auto.
Qed.

Lemma hex_prefix_inj (s1 s2 r1 r2 : string) :
  str_all is_hex_lower s1 = true -> str_all is_hex_lower s2 = true ->
  (s1 ++ String "_" r1)%string = (s2 ++ String "_" r2)%string ->
  s1 = s2 /\ r1 = r2.
Proof.
  revert s2. induction s1 as [|c s1 IH]; intros [|c' s2] H1 H2 H.
  - injection H as ->. auto.
  - injection H as <- _. cbn in H2. discriminate.
  - injection H as -> _. cbn in H1. discriminate.
  - cbn [str_all] in H1, H2. apply andb_prop in H1 as [_ H1].
    apply andb_prop in H2 as [_ H2].
    change (String c (s1 ++ String "_" r1) = String c' (s2 ++ String "_" r2))%string in H.
    injection H as -> H. destruct (IH s2 H1 H2 H) as [-> ->]. auto.
Qed.

(** X14: the group key keeps streams apart.  Two candidates filed under
    the same key have [str] urls with the same source identifier and the
    same profile identifier; candidates that differ in one of the two are
    never concatenated into one file. *)
Theorem group_key_separates (m1 m2 : media_info) (key : string) :
  group_key m1 = Ok (Some key) ->
  group_key m2 = Ok (Some key) ->
  exists u1 u2 source_id profile_id,
    url m1 = JStr u1 /\ url m2 = JStr u2 /\
    search_source u1 = Some source_id /\ search_source u2 = Some source_id /\
    search_profile u1 = Some profile_id /\ search_profile u2 = Some profile_id /\
    key = (source_id ++ "_profile_" ++ profile_id)%string.
Proof.
  assert (Hinv : forall m k, group_key m = Ok (Some k) ->
            exists u s p, url m = JStr u /\ search_source u = Some s /\
                          search_profile u = Some p /\
                          k = (s ++ "_profile_" ++ p)%string).
  { intros m k. unfold group_key.
    destruct (is_video_segment m); [|discriminate].
    destruct (url m) as [| | | |u|items|fields]; try discriminate;
      cbn [py_in]; run_binds.
    - destruct (str_in _ u); [|discriminate].
      destruct (search_source u) as [s|] eqn:Hs; [|discriminate].
      destruct (search_profile u) as [p|] eqn:Hp; [|discriminate].
      intros [= <-]. eauto 10.
    - destruct (existsb _ items); discriminate.
    - destruct (existsb _ fields); discriminate. }
  intros H1 H2.
  destruct (Hinv _ _ H1) as [u1 [s1 [p1 [Hu1 [Hs1 [Hp1 Hk1]]]]]].
  destruct (Hinv _ _ H2) as [u2 [s2 [p2 [Hu2 [Hs2 [Hp2 Hk2]]]]]].
  assert (Heq : s1 = s2 /\ ("profile_" ++ p1)%string = ("profile_" ++ p2)%string).
  { apply hex_prefix_inj.
    - apply (search_run_all _ _ _ _ _ Hs1).
    - apply (search_run_all _ _ _ _ _ Hs2).
    - rewrite Hk1 in Hk2. exact Hk2. }
  destruct Heq as [<- Hp]. apply str_app_inv_head in Hp as <-.
  exists u1, u2, s1, p1. repeat split; assumption.
Qed.

Lemma group_key_separates_witness :
  exists u1 u2 source_id profile_id,
    url (fetched (canvas_base ++ "0.webm")) = JStr u1 /\
    url (fetched (canvas_base ++ "inits/webm.webm")) = JStr u2 /\
    search_source u1 = Some source_id /\ search_source u2 = Some source_id /\
    search_profile u1 = Some profile_id /\ search_profile u2 = Some profile_id /\
    "ab12cd_profile_11" = (source_id ++ "_profile_" ++ profile_id)%string.
Proof.
  apply (group_key_separates (fetched (canvas_base ++ "0.webm"))
           (fetched (canvas_base ++ "inits/webm.webm")) "ab12cd_profile_11");
    reflexivity.
Defined.

(** ** More on filenames *)

Lemma safe_or_alnum_not_separator (c : ascii) :
  is_safe_char c || is_alnum c = true -> negb (is_separator c) = true.
Proof. destruct c as [[] [] [] [] [] [] [] []]; vm_compute; auto. Qed.

(** X15: a generated filename holds neither [/] nor [\]: joined to one of
    the output folders it names a file directly inside that folder. *)
Theorem generate_filename_no_separator (E : Env) (u path ext : string) :
  In ext file_extensions ->
  urlparse_path E u = Ok path ->
  exists name,
    generate_filename E (JStr u) ext = Ok name /\
    str_all (fun c => negb (is_separator c)) name = true.
Proof.
  intros [Hext _]%file_extensions_safe Hpath.
  unfold generate_filename, parsed_path. rewrite Hpath. run_binds.
  eexists. split; [reflexivity|].
  apply (str_all_impl (fun c => is_safe_char c || is_alnum c));
    [apply safe_or_alnum_not_separator|].
  rewrite str_all_app, sanitize_chars. simpl.
  apply (str_all_impl is_safe_char); [|exact Hext].
  intros c ->. reflexivity.
Qed.

Lemma generate_filename_no_separator_witness :
  exists name,
    generate_filename canvas_cdn (JStr "https://i.scdn.co/image/..%5C..%2Fx/a\b.png") ".png"
      = Ok name /\
    str_all (fun c => negb (is_separator c)) name = true.
Proof.
  apply (generate_filename_no_separator canvas_cdn
           "https://i.scdn.co/image/..%5C..%2Fx/a\b.png" "/image/..%5C..%2Fx/a\b.png" ".png").
  - simpl. tauto.
  - reflexivity.
Defined.

Lemma lstrip_all (c : ascii) (s : string) :
  str_all (fun x => Ascii.eqb x c) s = true -> lstrip_char c s = "".
Proof.
  induction s as [|a s IH]; simpl; [reflexivity|].
  intros [Ha Hs]%andb_prop. rewrite Ha. apply IH, Hs.
Qed.

Lemma sanitize_kept (s : string) :
  str_all keeps s = true -> sanitize s = s.
Proof.
  unfold sanitize. induction s as [|c s IH]; cbn [str_map str_all]; [reflexivity|].
  intros [Hc Hs]%andb_prop. rewrite Hc, (IH Hs). reflexivity.
Qed.

Lemma keeps_uint (d : Decimal.uint) :
  str_all keeps (NilEmpty.string_of_uint d) = true.
Proof. induction d; simpl; auto. Qed.

Lemma keeps_str_of_int (n : Z) : str_all keeps (str_of_int n) = true.
Proof.
  unfold str_of_int, NilZero.string_of_int.
  destruct (Z.to_int n) as [d|d]; unfold NilZero.string_of_uint.
  - destruct d; try reflexivity; apply (keeps_uint (_ _)).
  - simpl. destruct d; try reflexivity; apply (keeps_uint (_ _)).
Qed.

(** X16: the fallback name.  When the path of the url is empty or holds
    nothing but slashes, the filename is [spotify_media_], the clock
    reading in decimal and the extension.  Two such urls resolved within
    the same second get the same name. *)
Theorem generate_filename_fallback (E : Env) (u path ext : string) :
  urlparse_path E u = Ok path ->
  str_all is_slash path = true ->
  generate_filename E (JStr u) ext
  = Ok ("spotify_media_" ++ str_of_int (now E) ++ ext)%string.
Proof.
  intros Hpath Hs. unfold generate_filename, parsed_path. rewrite Hpath. run_binds.
  unfold strip_char. rewrite (lstrip_all "/" path Hs). cbn [rstrip_char split_char List.last].
  cbn [String.eqb negb]. rewrite sanitize_kept.
  - rewrite str_app_assoc. reflexivity.
  - rewrite str_all_app, keeps_str_of_int. reflexivity.
Qed.

Lemma generate_filename_fallback_witness :
  generate_filename canvas_cdn (JStr "https://i.scdn.co//?size=640") ".jpg"
  = Ok "spotify_media_0.jpg".
Proof.
  apply (generate_filename_fallback canvas_cdn "https://i.scdn.co//?size=640" "//" ".jpg");
    reflexivity.
Defined.

Lemma str_app_nil_r (s : string) : (s ++ "")%string = s.
Proof.
  induction s as [|c s IH]; [reflexivity|].
  change (String c (s ++ "") = String c s)%string. f_equal. exact IH.
Qed.

Lemma rstrip_without (c : ascii) (s : string) :
  str_all (fun x => negb (Ascii.eqb x c)) s = true -> rstrip_char c s = s.
Proof.
  induction s as [|a s IH]; cbn [rstrip_char str_all]; [reflexivity|].
  intros [Ha Hs]%andb_prop. rewrite (IH Hs).
  apply negb_true_iff in Ha. rewrite Ha, andb_false_r. reflexivity.
Qed.

Lemma rstrip_app (c : ascii) (a seg : string) :
  str_all (fun x => negb (Ascii.eqb x c)) seg = true -> seg <> "" ->
  rstrip_char c (a ++ seg) = (a ++ seg)%string.
Proof.
  intros Hseg Hne. induction a as [|x a IH].
  - apply rstrip_without, Hseg.
  - change (rstrip_char c (String x (a ++ seg)) = String x (a ++ seg))%string.
    cbn [rstrip_char]. rewrite IH.
    destruct (String.eqb_spec (a ++ seg) "") as [He|_]; [|reflexivity].
    destruct a; [contradiction|discriminate].
Qed.

Lemma lstrip_app (c : ascii) (a seg : string) :
  str_all (fun x => negb (Ascii.eqb x c)) seg = true -> seg <> "" ->
  dir_prefix c a ->
  exists a', dir_prefix c a' /\ lstrip_char c (a ++ seg) = (a' ++ seg)%string.
Proof.
  intros Hseg Hne. induction a as [|x a IH]; intros Ha.
  - exists "". split; [left; reflexivity|].
    destruct seg as [|y seg]; [contradiction|].
    cbn [str_all] in Hseg. apply andb_prop in Hseg as [Hy _].
    apply negb_true_iff in Hy. change ("" ++ String y seg)%string with (String y seg).
    cbn [lstrip_char]. rewrite Hy. reflexivity.
  - change (String x a ++ seg)%string with (String x (a ++ seg)).
    cbn [lstrip_char]. destruct (Ascii.eqb x c) eqn:Hx.
    + apply IH. destruct Ha as [Ha|[b Hb]]; [discriminate|].
      destruct b as [|y b].
      * injection Hb as _ ->. left. reflexivity.
      * change (String x a = String y (b ++ String c "")) in Hb.
        injection Hb as _ ->. right. eauto.
    + exists (String x a). split; [exact Ha|reflexivity].
Qed.

Lemma split_char_nonempty (c : ascii) (s : string) : split_char c s <> [].
Proof.
  destruct s as [|a s]; cbn [split_char]; [discriminate|].
  destruct (Ascii.eqb a c); [discriminate|].
  destruct (split_char c s); discriminate.
Qed.

Lemma split_char_app (c : ascii) (b s : string) :
  split_char c (b ++ String c s) = split_char c b ++ split_char c s.
Proof.
  induction b as [|x b IH].
  - change ("" ++ String c s)%string with (String c s).
    cbn [split_char]. rewrite Ascii.eqb_refl. reflexivity.
  - change (String x b ++ String c s)%string with (String x (b ++ String c s)).
    cbn [split_char]. rewrite IH. destruct (Ascii.eqb x c); [reflexivity|].
    pose proof (split_char_nonempty c b) as Hb.
    destruct (split_char c b) as [|h t]; [contradiction|reflexivity].
Qed.

Lemma split_char_without (c : ascii) (s : string) :
  str_all (fun x => negb (Ascii.eqb x c)) s = true -> split_char c s = [s].
Proof.
  induction s as [|a s IH]; cbn [split_char str_all]; [reflexivity|].
  intros [Ha Hs]%andb_prop. apply negb_true_iff in Ha. rewrite Ha, (IH Hs).
  reflexivity.
Qed.

Lemma last_app_nonempty {A} (l1 l2 : list A) (d : A) :
  l2 <> [] -> List.last (l1 ++ l2) d = List.last l2 d.
Proof.
  intros H. induction l1 as [|x l1 IH]; [reflexivity|].
  cbn [app List.last]. destruct (l1 ++ l2) eqn:He; [|exact IH].
  apply app_eq_nil in He as [_ He]. contradiction.
Qed.

Lemma last_part_of_path (dir seg : string) :
  str_all (fun x => negb (is_slash x)) seg = true -> seg <> "" ->
  List.last (split_char "/" (strip_char "/" (dir ++ "/" ++ seg))) "" = seg.
Proof.
  intros Hseg Hne. unfold strip_char.
  destruct (lstrip_app "/" (dir ++ "/") seg Hseg Hne) as [a' [Ha' Hl]].
  { right. exists dir. reflexivity. }
  rewrite <- str_app_assoc, Hl, (rstrip_app _ _ _ Hseg Hne).
  destruct Ha' as [->|[b ->]].
  - change ("" ++ seg)%string with seg. rewrite (split_char_without _ _ Hseg). reflexivity.
  - rewrite str_app_assoc. change (String "/" "" ++ seg)%string with (String "/" seg).
    rewrite split_char_app, last_app_nonempty by apply split_char_nonempty.
    rewrite (split_char_without _ _ Hseg). reflexivity.
Qed.

(** X17: the filename is made from the last segment of the path alone.
    For a path that ends in a non-empty segment, the name is the sanitised
    segment without its last dot-suffix, followed by the extension; the
    directories before it play no part, so two urls with the same last
    segment (the [0.webm] of two streams) are written to the same file
    name. *)
Theorem generate_filename_last_segment (E : Env) (u dir seg ext : string) :
  urlparse_path E u = Ok (dir ++ "/" ++ seg)%string ->
  str_all (fun x => negb (is_slash x)) seg = true ->
  seg <> "" ->
  generate_filename E (JStr u) ext = Ok (sanitize (stem seg) ++ ext)%string.
Proof.
  intros Hpath Hseg Hne. unfold generate_filename, parsed_path. rewrite Hpath.
  run_binds. rewrite (last_part_of_path dir seg Hseg Hne).
  destruct (String.eqb_spec seg "") as [He|_]; [contradiction|]. reflexivity.
Qed.

Lemma generate_filename_last_segment_witness :
  generate_filename canvas_cdn (JStr (canvas_base ++ "0.webm")) ".webm" = Ok "0.webm" /\
  generate_filename canvas_cdn (JStr (other_base ++ "0.webm")) ".webm" = Ok "0.webm".
Proof.
  split.
  - apply (generate_filename_last_segment canvas_cdn (canvas_base ++ "0.webm")
             "/segments/v1/origins/1/sources/ab12cd/encodings/7/profiles/11" "0.webm" ".webm");
      [reflexivity|reflexivity|discriminate].
  - apply (generate_filename_last_segment canvas_cdn (other_base ++ "0.webm")
             "/segments/v1/origins/1/sources/ff00/encodings/7/profiles/3" "0.webm" ".webm");
      [reflexivity|reflexivity|discriminate].
Defined.

(** ** Segment numbers *)

Lemma str_span_app_stop (cls : ascii -> bool) (a : string) (x : ascii) (r : string) :
  cls x = false ->
  str_span cls (a ++ String x r)
  = (fst (str_span cls a), (snd (str_span cls a) ++ String x r)%string).
Proof.
  intros Hx. induction a as [|c a IH].
  - change ("" ++ String x r)%string with (String x r). cbn [str_span]. rewrite Hx.
    reflexivity.
  - change (String c a ++ String x r)%string with (String c (a ++ String x r)).
    cbn [str_span]. destruct (cls c); [|reflexivity].
    rewrite IH. destruct (str_span cls a) as [run rest]. reflexivity.
Qed.

Lemma str_span_all_stop (cls : ascii -> bool) (d : string) (x : ascii) (r : string) :
  str_all cls d = true -> cls x = false ->
  str_span cls (d ++ String x r) = (d, String x r).
Proof.
  intros Hd Hx. induction d as [|c d IH].
  - change ("" ++ String x r)%string with (String x r). cbn [str_span]. rewrite Hx.
    reflexivity.
  - change (String c d ++ String x r)%string with (String c (d ++ String x r)).
    cbn [str_all] in Hd. apply andb_prop in Hd as [Hc Hd].
    cbn [str_span]. rewrite Hc, (IH Hd). reflexivity.
Qed.

Lemma str_span_split (cls : ascii -> bool) (s : string) :
  s = (fst (str_span cls s) ++ snd (str_span cls s))%string.
Proof.
  induction s as [|c s IH]; [reflexivity|]. cbn [str_span].
  destruct (cls c); [|reflexivity].
  destruct (str_span cls s) as [run rest]. cbn [fst snd] in *.
  change (String c s = String c (run ++ rest))%string. f_equal. exact IH.
Qed.

Lemma startswith_before (p x : string) (c : ascii) (r : string) :
  str_all (fun y => negb (Ascii.eqb y c)) p = true ->
  startswith p (x ++ String c r) = true -> startswith p x = true.
Proof.
  revert x. induction p as [|a p IH]; intros x Hp H; [reflexivity|].
  cbn [str_all] in Hp. apply andb_prop in Hp as [Ha Hp]. apply negb_true_iff in Ha.
  destruct x as [|b x].
  - change ("" ++ String c r)%string with (String c r) in H. cbn [startswith] in H.
    rewrite Ha in H. discriminate.
  - change (String b x ++ String c r)%string with (String b (x ++ String c r)) in H.
    cbn [startswith] in *. apply andb_prop in H as [Hab H].
    rewrite Hab, (IH x Hp H). reflexivity.
Qed.

Lemma match_segment_inside (c : ascii) (a rest : string) :
  str_in ".webm" a = false ->
  match_run "/" is_decimal ".webm" (String c (a ++ String "/" rest)) = None.
Proof.
  intros Ha. unfold match_run.
  destruct (startswith "/" (String c (a ++ String "/" rest))); [|reflexivity].
  cbn [String.length str_drop].
  rewrite (str_span_app_stop is_decimal a "/" rest eq_refl).
  destruct (String.eqb_spec (fst (str_span is_decimal a)) ""); [reflexivity|].
  cbn [negb andb].
  destruct (startswith ".webm" (snd (str_span is_decimal a) ++ String "/" rest)) eqn:Hw;
    [|reflexivity].
  exfalso. apply startswith_before in Hw; [|reflexivity].
  apply startswith_spec in Hw as [t Ht].
  assert (Hin : str_in ".webm" a = true).
  { apply str_in_spec. exists (fst (str_span is_decimal a)), t.
    rewrite <- Ht. apply str_span_split. }
  congruence.
Qed.

Lemma search_segment_of_name (a d b : string) :
  str_in ".webm" a = false ->
  str_all is_decimal d = true ->
  d <> "" ->
  search_segment (a ++ String "/" (d ++ String "." ("webm" ++ b))) = Some d.
Proof.
  intros Ha Hd Hne. unfold search_segment. induction a as [|c a IH].
  - change ("" ++ ?s)%string with s. cbn [search_run]. unfold match_run.
    change (startswith "/" (String "/" ?s)) with true. cbn iota.
    cbn [String.length str_drop].
    rewrite (str_span_all_stop is_decimal d "." _ Hd eq_refl).
    destruct (String.eqb_spec d ""); [contradiction|]. reflexivity.
  - change (String c a ++ ?s)%string with (String c (a ++ s)).
    cbn [str_in] in Ha. apply orb_false_elim in Ha as [_ Ha].
    cbn [search_run]. rewrite (match_segment_inside c a _ Ha). apply IH, Ha.
Qed.

(** X18: the segment number is read back from a file name.  For a url
    made of a part without [.webm], a slash, a non-empty run of at most
    4300 digits and [.webm], [extract_segment_number] is the number the
    digits spell, whatever follows; the first such place of a url
    decides. *)
Theorem extract_segment_number_of_name (a d b : string) :
  str_in ".webm" a = false ->
  str_all is_decimal d = true ->
  d <> "" ->
  String.length d <= int_max_str_digits ->
  extract_segment_number (a ++ "/" ++ d ++ ".webm" ++ b) = int_of_digits d.
Proof.
  intros Ha Hd Hne _. unfold extract_segment_number.
  change (a ++ "/" ++ d ++ ".webm" ++ b)%string
    with (a ++ String "/" (d ++ String "." ("webm" ++ b)))%string.
  rewrite (search_segment_of_name a d b Ha Hd Hne). reflexivity.
Qed.

Lemma extract_segment_number_of_name_witness :
  extract_segment_number (canvas_base ++ "seg" ++ "/" ++ "0012" ++ ".webm" ++ "?part=/7.webm")
  = 12%N.
Proof.
  apply (extract_segment_number_of_name (canvas_base ++ "seg") "0012" "?part=/7.webm").
  - reflexivity.
  - reflexivity.
  - discriminate.
  - unfold int_max_str_digits. simpl. lia.
Defined.

(** ** Conversion *)

Lemma str_replace_suffix (s : string) :
  str_all (fun c => negb (Ascii.eqb c ".")) s = true ->
  str_replace ".webm" ".mp4" (s ++ ".webm") = (s ++ ".mp4")%string.
Proof.
  unfold str_replace. induction s as [|c s IH]; intros Hs; [reflexivity|].
  change (String c s ++ ?t)%string with (String c (s ++ t)).
  cbn [str_all] in Hs. apply andb_prop in Hs as [Hc Hs].
  apply negb_true_iff in Hc. cbn [str_replace_from].
  assert (Hw : startswith ".webm" (String c (s ++ ".webm")) = false).
  { cbn [startswith]. rewrite Ascii.eqb_sym, Hc. reflexivity. }
  rewrite Hw, (IH Hs). reflexivity.
Qed.

Lemma hex_no_dot (s : string) :
  str_all is_hex_lower s = true -> str_all (fun c => negb (Ascii.eqb c ".")) s = true.
Proof.
  apply str_all_impl. intros c. destruct c as [[] [] [] [] [] [] [] []]; vm_compute; auto.
Qed.

Lemma decimal_no_dot (s : string) :
  str_all is_decimal s = true -> str_all (fun c => negb (Ascii.eqb c ".")) s = true.
Proof.
  apply str_all_impl. intros c. destruct c as [[] [] [] [] [] [] [] []]; vm_compute; auto.
Qed.

(** X19: the converted file of a group is named like its assembled file,
    with [.mp4] for [.webm]: the key of a group holds no dot, so the
    replacement touches the suffix only.  [convert_to_mp4] yields that path
    when ffmpeg succeeds and nothing when it does not. *)
Theorem convert_to_mp4_path (E : Env) (m : media_info) (key : string) :
  group_key m = Ok (Some key) ->
  convert_to_mp4 E (output_path_of key)
  = if ffmpeg_ok E (output_path_of key) (mp4_path_of key)
    then Some (mp4_path_of key)
    else None.
Proof.
  intros Hk. unfold group_key in Hk.
  destruct (is_video_segment m); [|discriminate].
  destruct (url m) as [| | | |u|items|fields]; try discriminate;
    revert Hk; cbn [py_in]; run_binds;
    [|destruct (existsb _ items); discriminate
     |destruct (existsb _ fields); discriminate].
  destruct (str_in _ u); [|discriminate].
  destruct (search_source u) as [s|] eqn:Hs; [|discriminate].
  destruct (search_profile u) as [p|] eqn:Hp; [|discriminate].
  intros [= <-].
  apply search_run_all in Hs as [Hs _]. apply search_run_all in Hp as [Hp _].
  unfold convert_to_mp4.
  assert (Hr : str_replace ".webm" ".mp4" (output_path_of (s ++ "_profile_" ++ p))
               = mp4_path_of (s ++ "_profile_" ++ p)).
  { unfold output_path_of, mp4_path_of, path_join.
    rewrite <- !str_app_assoc. rewrite str_replace_suffix; [reflexivity|].
    rewrite !str_app_assoc, !str_all_app.
    rewrite (hex_no_dot _ Hs), (decimal_no_dot _ Hp). reflexivity. }
  rewrite Hr. reflexivity.
Qed.

Lemma convert_to_mp4_path_witness :
  convert_to_mp4 canvas_cdn (output_path_of "ab12cd_profile_11")
  = if ffmpeg_ok canvas_cdn (output_path_of "ab12cd_profile_11")
         (mp4_path_of "ab12cd_profile_11")
    then Some (mp4_path_of "ab12cd_profile_11")
    else None.
Proof.
  apply (convert_to_mp4_path canvas_cdn (fetched (canvas_base ++ "0.webm"))
           "ab12cd_profile_11").
  reflexivity.
Defined.

(** ** Documents that are not objects, and files *)

(** X20: a document that is not a JSON object makes the run raise: the
    guard of [extract_spotify_images] fails on it with [TypeError], or lets
    it through as invalid and [save_analysis_report] then calls [get] on
    it, which raises [AttributeError]. *)
Theorem process_har_data_not_an_object (E : Env) (har_data : json)
    (found_urls : gset string) :
  (forall fields, har_data <> JObj fields) ->
  process_har_data E har_data found_urls = Raise TypeError \/
  process_har_data E har_data found_urls = Raise AttributeError.
Proof.
  intros Hno. unfold process_har_data, extract_spotify_images, por.
  destruct har_data as [| b | z | q | s | items | fields];
    try (left; reflexivity); [| |exfalso; exact (Hno fields eq_refl)].
  - cbn [py_in]. run_binds. destruct (str_in "log" s); cbn [negb]; [left|right];
      reflexivity.
  - cbn [py_in]. run_binds. destruct (existsb (is_str "log") items); cbn [negb];
      [left|right]; reflexivity.
Qed.

Lemma process_har_data_not_an_object_witness :
  process_har_data offline (JArr [JInt 1]) ∅ = Raise TypeError \/
  process_har_data offline (JArr [JInt 1]) ∅ = Raise AttributeError.
Proof.
  apply (process_har_data_not_an_object offline (JArr [JInt 1]) ∅).
  discriminate.
Defined.

(** X21: [process_har_file] turns every failure to read or parse the file
    into the failure dict, and does the same for a document that parsed
    but is falsy: the empty object, the empty list, [null], zero, the empty
    string.  It does not raise in these cases and runs nothing. *)
Theorem process_har_file_fails_softly (E : Env) (read_text : string -> result string)
    (har_path : string) (found_urls : gset string) :
  (forall har_data, (text ← read_text har_path; json_loads E text) = Ok har_data ->
                    truthy har_data = false) ->
  process_har_file E read_text har_path found_urls = Ok (Failed "Failed to load HAR file").
Proof.
  intros H. unfold process_har_file, load_har_file.
  destruct (_ ≫= _) as [har_data|e]; [|reflexivity].
  rewrite (H har_data eq_refl). reflexivity.
Qed.

Lemma process_har_file_fails_softly_witness :
  process_har_file empty_file_world one_file "empty.har" ∅
    = Ok (Failed "Failed to load HAR file") /\
  process_har_file empty_file_world one_file "missing.har" ∅
    = Ok (Failed "Failed to load HAR file").
Proof.
  split.
  - apply (process_har_file_fails_softly empty_file_world one_file "empty.har" ∅).
    intros har_data [= <-]. reflexivity.
  - apply (process_har_file_fails_softly empty_file_world one_file "missing.har" ∅).
    intros har_data [=].
Defined.

(** ** Embedded payloads on disk *)

(** X22: an embedded payload is written as it was decoded.  For a
    candidate with a decoded payload, a [str] content type and a url that
    parses, [download_media] asks no server, leaves the dict as it is and
    writes exactly the decoded bytes, into the videos folder when the
    content type holds [video] or the extension is [.webm] or [.mp4], into
    the images folder otherwise.  The content type is matched as it stands
    in the capture, not lower-cased. *)
Theorem download_media_embedded_saved (E : Env) (m : media_info)
    (data : bytes) (ct u path : string) :
  decoded_data m = Some data ->
  content_type m = JStr ct ->
  url m = JStr u ->
  urlparse_path E u = Ok path ->
  exists ext name,
    get_file_extension (JStr ct) data = Ok ext /\
    generate_filename E (JStr u) ext = Ok name /\
    download_media E m
    = (m, Some (path_join (if str_in "video" ct || is_video_ext ext
                           then videos_folder else images_folder) name, data)).
Proof.
  intros Hd Hct Hu Hpath.
  destruct (get_file_extension_range ct data) as [ext [Hext _]].
  assert (Hname : exists name, generate_filename E (JStr u) ext = Ok name).
  { unfold generate_filename, parsed_path. rewrite Hpath. run_binds. eexists. reflexivity. }
  destruct Hname as [name Hname]. exists ext, name.
  split; [exact Hext|]. split; [exact Hname|].
  unfold download_media, save_embedded_media. rewrite Hd, Hct, Hu, Hext.
  run_binds. rewrite Hname. unfold por. cbn [py_in]. run_binds.
  destruct (str_in "video" ct); [reflexivity|].
  destruct (is_video_ext ext); reflexivity.
Qed.

Lemma download_media_embedded_saved_witness :
  download_media offline_paths embedded_png_candidate
  = (embedded_png_candidate, Some ("har_extracted/images/cover.bin", [x1a; x45])).
Proof.
  destruct (download_media_embedded_saved offline_paths embedded_png_candidate
              [x1a; x45] "Image/PNG" "https://i.scdn.co/image/cover.one"
              "/image/cover.one" eq_refl eq_refl eq_refl eq_refl)
    as [ext [name [Hext [Hname ->]]]].
  vm_compute in Hext. injection Hext as <-.
  vm_compute in Hname. injection Hname as <-.
  reflexivity.
Defined.

(** X23: an embedded payload whose content type is [null], a boolean or a
    number is not saved: [get_file_extension] raises on the content type,
    [save_embedded_media] catches that, and [download_media] returns no
    path, writes nothing and asks no server. *)
Theorem download_media_embedded_scalar (E : Env) (m : media_info) (data : bytes) :
  decoded_data m = Some data ->
  is_scalar (content_type m) = true ->
  download_media E m = (m, None).
Proof.
  intros Hd Hct. unfold download_media, save_embedded_media. rewrite Hd.
  unfold get_file_extension, por. rewrite (py_in_scalar "jpeg" _ Hct). reflexivity.
Qed.

Lemma download_media_embedded_scalar_witness :
  download_media canvas_cdn embedded_null_candidate = (embedded_null_candidate, None).
Proof.
  apply (download_media_embedded_scalar canvas_cdn embedded_null_candidate [x1a; x45]);
    reflexivity.
Defined.

(** X24: on a [str] content type [get_file_extension] never raises and
    returns one of [.jpg], [.png], [.gif], [.webp], [.webm], [.mp4],
    [.bin]; on [null], a boolean or a number it raises [TypeError]. *)
Theorem get_file_extension_total (content_type : json) (data : bytes) :
  (forall ct, content_type = JStr ct ->
     exists ext, get_file_extension content_type data = Ok ext /\
                 In ext file_extensions) /\
  (is_scalar content_type = true ->
     get_file_extension content_type data = Raise TypeError).
Proof.
  split.
  - intros ct ->. apply get_file_extension_range.
  - intros H. unfold get_file_extension, por. rewrite (py_in_scalar "jpeg" _ H).
    reflexivity.
Qed.

Lemma get_file_extension_total_witness :
  (exists ext, get_file_extension (JStr "application/octet-stream") [] = Ok ext /\
               In ext file_extensions) /\
  get_file_extension JNull [] = Raise TypeError.
Proof.
  split.
  - exact (proj1 (get_file_extension_total (JStr "application/octet-stream") [])
             "application/octet-stream" eq_refl).
  - exact (proj2 (get_file_extension_total JNull []) eq_refl).
Defined.

(** X25: a discovered url that is also the url of a candidate is not
    fetched a second time: the last loop of [process_har_data] passes over
    it. *)
Theorem download_found_skips_candidates (E : Env) (urls : list string)
    (extracted_media : list media_info) :
  Forall (fun u => In (JStr u) (map url extracted_media)) urls ->
  download_found E urls extracted_media = [].
Proof.
  induction 1 as [|u urls Hu Hrest IH]; simpl; [reflexivity|].
  assert (He : existsb (fun m => is_str u (url m)) extracted_media = true).
  { apply in_map_iff in Hu as [m [Hm Hin]]. apply existsb_exists. exists m.
    split; [exact Hin|]. rewrite Hm. simpl. apply String.eqb_refl. }
  rewrite He. exact IH.
Qed.

Lemma download_found_skips_candidates_witness :
  download_found canvas_cdn [(canvas_base ++ "0.webm")%string]
    [fetched (canvas_base ++ "0.webm")] = [].
Proof.
  apply (download_found_skips_candidates canvas_cdn [(canvas_base ++ "0.webm")%string]
           [fetched (canvas_base ++ "0.webm")]).
  repeat constructor.
Defined.
